(** * swak.js: a fixed-order Markov-chain text generator

    A shallow embedding of [src/swak.js] (class [EnhancedLLM]) and the
    properties of its tokenizer, trainer, sampler and generator.

    Modelling conventions.
    - A JS string is a [string]: a sequence of code units below 256
      (Latin-1), which covers every text used below.
    - A JS Number is an IEEE-754 binary64 value, [spec_float] with
      precision 53 and maximal exponent 1024.  Numbers that the code has
      checked with [Number.isInteger], and the counters it only ever
      increments from 0 ([order], lengths, occurrence counts,
      [totalTokens]), are carried as [nat] or [Z]: their arithmetic is
      exact below 2^53.
    - A JS [Map] is an association list in insertion order, a JS [Set] a
      list in insertion order.
    - [Math.random] is a stream of draws; the k-th call of an invocation
      reads the k-th element. *)

From Stdlib Require Import ZArith List Bool Ascii String Lia Arith.
From Stdlib Require Import DecimalString.
From Stdlib Require Import SpecFloat.
Import ListNotations.

Open Scope string_scope.

(** ** JS Numbers *)

Module Number.

Definition num := spec_float.

Definition prec : Z := 53.
Definition emax : Z := 1024.

Definition add : num -> num -> num := SFadd prec emax.
Definition mul : num -> num -> num := SFmul prec emax.
Definition div : num -> num -> num := SFdiv prec emax.
Definition ltb : num -> num -> bool := SFltb.
Definition leb : num -> num -> bool := SFleb.

Definition of_Z (z : Z) : num := binary_normalize prec emax z 0 false.

Definition zero : num := S754_zero false.
Definition one : num := of_Z 1.
Definition NaN : num := S754_nan.
Definition Infinity : num := S754_infinity false.

(** [Number.isFinite] *)
Definition isFinite (x : num) : bool :=
  match x with
  | S754_zero _ | S754_finite _ _ _ => true
  | _ => false
  end.

(** [Math.floor], as an integer; [None] for NaN and the infinities. *)
Definition floor (x : num) : option Z :=
  match x with
  | S754_zero _ => Some 0%Z
  | S754_finite s m e => Some (Z.shiftl (cond_Zopp s (Zpos m)) e)
  | _ => None
  end.

(** [Number.isInteger]: finite, and no bit below the unit. *)
Definition isInteger (x : num) : bool :=
  match x with
  | S754_zero _ => true
  | S754_finite _ m e =>
      (0 <=? e)%Z || (Z.land (Zpos m) (Z.ones (- e)) =? 0)%Z
  | _ => false
  end.

(** The integer an integral Number stands for. *)
Definition to_Z (x : num) : Z :=
  match floor x with Some z => z | None => 0%Z end.

Definition is_odd_integer (x : num) : bool :=
  isInteger x && Z.odd (to_Z x).

(** [Math.pow], after Number::exponentiate of ECMA-262.  The standard
    fixes the result in the cases written out here and leaves the last
    one, a finite non-zero base raised to a finite non-zero exponent, to
    an implementation-approximated value: [approx]. *)
Definition pow (approx : num -> num -> num) (base exponent : num) : num :=
  match exponent with
  | S754_nan => NaN
  | S754_zero _ => one
  | _ =>
      let positive := ltb zero exponent in
      let odd := is_odd_integer exponent in
      match base with
      | S754_nan => NaN
      | S754_infinity false =>
          if positive then Infinity else zero
      | S754_infinity true =>
          if positive
          then S754_infinity odd
          else S754_zero odd
      | S754_zero false =>
          if positive then zero else Infinity
      | S754_zero true =>
          if positive
          then S754_zero odd
          else S754_infinity odd
      | S754_finite sb _ _ =>
          match exponent with
          | S754_infinity se =>
              match SFcompare (SFabs base) one with
              | Some Gt => if se then zero else Infinity
              | Some Lt => if se then Infinity else zero
              | _ => NaN
              end
          | _ =>
              if sb && negb (isInteger exponent) then NaN
              else approx base exponent
          end
      end
  end.

End Number.

Abbreviation num := Number.num.

(** ** JS values, exceptions *)

Inductive value : Type :=
| JSUndefined
| JSNull
| JSBoolean (b : bool)
| JSNumber (x : num)
| JSString (s : string)
| JSObject.

Inductive error : Type :=
| ValidationError (message : string)
| TypeError.

(** [error.message]; the text of an engine's TypeError is not fixed by the
    language, one engine's wording stands for it. *)
Definition error_message (e : error) : string :=
  match e with
  | ValidationError message => message
  | TypeError => "Cannot read properties of undefined"
  end.

Inductive result (A : Type) : Type :=
| Ok (a : A)
| Throw (e : error).

Arguments Ok {A} a.
Arguments Throw {A} e.

Definition bind {A B : Type} (r : result A) (k : A -> result B) : result B :=
  match r with
  | Ok a => k a
  | Throw e => Throw e
  end.

Declare Scope result_scope.
Delimit Scope result_scope with result.
Notation "'do' x <- r ; k" := (bind r (fun x => k))
  (at level 10, x name, r at level 100, k at level 200) : result_scope.
Notation "'check' r ; k" := (bind r (fun _ => k))
  (at level 10, r at level 100, k at level 200) : result_scope.

(** ** Strings *)

Module Str.

(** The class [\s], on code units below 256: TAB, LF, VT, FF, CR, space
    and the no-break space. *)
Definition is_space (c : ascii) : bool :=
  let n := nat_of_ascii c in
  (((9 <=? n) && (n <=? 13)) || (n =? 32) || (n =? 160))%nat.

(** The class [[.!?]]. *)
Definition is_terminator (c : ascii) : bool :=
  (c =? ".")%char || (c =? "!")%char || (c =? "?")%char.

Definition starts_with_space (s : string) : bool :=
  match s with
  | String c _ => is_space c
  | EmptyString => false
  end.

(** [s.replace(/\s+/g, ' ')]: every maximal run of white space becomes
    one space.  [inrun] holds while the scan is inside a run. *)
Fixpoint collapse_spaces_from (inrun : bool) (s : string) : string :=
  match s with
  | EmptyString => EmptyString
  | String c s' =>
      if is_space c
      then if inrun then collapse_spaces_from true s'
           else String " " (collapse_spaces_from true s')
      else String c (collapse_spaces_from false s')
  end.

Definition collapse_spaces : string -> string := collapse_spaces_from false.

(** [s.replace(/([.!?])\s*/g, ' $1 ')]: a terminator and the white space
    after it become the terminator between two spaces.  [skip] holds
    while the scan is in the white space that a match swallows. *)
Fixpoint space_terminators_from (skip : bool) (s : string) : string :=
  match s with
  | EmptyString => EmptyString
  | String c s' =>
      if is_terminator c
      then String " " (String c (String " " (space_terminators_from true s')))
      else if skip && is_space c
           then space_terminators_from true s'
           else String c (space_terminators_from false s')
  end.

Definition space_terminators : string -> string :=
  space_terminators_from false.

Fixpoint trimStart (s : string) : string :=
  match s with
  | EmptyString => EmptyString
  | String c s' => if is_space c then trimStart s' else s
  end.

Fixpoint trimEnd (s : string) : string :=
  match s with
  | EmptyString => EmptyString
  | String c s' =>
      match trimEnd s' with
      | EmptyString => if is_space c then EmptyString else String c EmptyString
      | t => String c t
      end
  end.

Definition trim (s : string) : string := trimEnd (trimStart s).

(** [s.split(/\s+/)]: the pieces between the maximal runs of white
    space; a run at either end leaves an empty piece there. *)
Fixpoint split_spaces (s : string) : string * list string :=
  match s with
  | EmptyString => (EmptyString, [])
  | String c s' =>
      let (tok, rest) := split_spaces s' in
      if is_space c
      then if starts_with_space s' then (tok, rest)
           else (EmptyString, tok :: rest)
      else (String c tok, rest)
  end.

Definition split_ws (s : string) : list string :=
  let (tok, rest) := split_spaces s in tok :: rest.

(** [s.split(sep)] for a one-character separator. *)
Fixpoint split_at (sep : ascii) (s : string) : string * list string :=
  match s with
  | EmptyString => (EmptyString, [])
  | String c s' =>
      let (tok, rest) := split_at sep s' in
      if (c =? sep)%char then (EmptyString, tok :: rest)
      else (String c tok, rest)
  end.

Definition split (sep : ascii) (s : string) : list string :=
  let (tok, rest) := split_at sep s in tok :: rest.

(** [a.join(' ')] *)
Definition join (sep : string) (a : list string) : string :=
  String.concat sep a.

(** [s.match(/[.!?]$/)] as a truth value: the last character is a
    terminator. *)
Fixpoint ends_with_terminator (s : string) : bool :=
  match s with
  | EmptyString => false
  | String c EmptyString => is_terminator c
  | String _ s' => ends_with_terminator s'
  end.

(** [toLowerCase] on code units below 256: A-Z, and the Latin-1 capitals
    192-222 but for the multiplication sign 215. *)
Definition lower (c : ascii) : ascii :=
  let n := nat_of_ascii c in
  if (((65 <=? n) && (n <=? 90))
      || ((192 <=? n) && (n <=? 222) && negb (n =? 215)))%nat
  then ascii_of_nat (n + 32)
  else c.

Fixpoint toLowerCase (s : string) : string :=
  match s with
  | EmptyString => EmptyString
  | String c s' => String (lower c) (toLowerCase s')
  end.

Definition is_empty (s : string) : bool :=
  match s with EmptyString => true | _ => false end.

(** Every character of [s] satisfies [p]. *)
Fixpoint all_chars (p : ascii -> bool) (s : string) : bool :=
  match s with
  | EmptyString => true
  | String c s' => p c && all_chars p s'
  end.

(** Decimal rendering of a small natural number, for messages. *)
Definition of_nat (n : nat) : string :=
  NilEmpty.string_of_uint (Nat.to_uint n).

End Str.

(** [a.slice(start, start + n)] and [a.slice(-n)] for [n >= 1]. *)
Definition slice {A : Type} (a : list A) (start n : nat) : list A :=
  firstn n (skipn start a).

Definition slice_last {A : Type} (a : list A) (n : nat) : list A :=
  skipn (List.length a - n) a.

(** ** Map and Set *)

Section JSMap.
Context {V : Type}.

(** Entries in insertion order. *)
Definition Map : Type := list (string * V).

Fixpoint Map_get (m : Map) (k : string) : option V :=
  match m with
  | [] => None
  | (k', v) :: m' => if (k' =? k)%string then Some v else Map_get m' k
  end.

Definition Map_has (m : Map) (k : string) : bool :=
  match Map_get m k with Some _ => true | None => false end.

(** [m.set(k, v)]: a key already present keeps its place. *)
Fixpoint Map_set (m : Map) (k : string) (v : V) : Map :=
  match m with
  | [] => [(k, v)]
  | (k', v') :: m' =>
      if (k' =? k)%string then (k, v) :: m' else (k', v') :: Map_set m' k v
  end.

Definition Map_size (m : Map) : nat := List.length m.
Definition Map_keys (m : Map) : list string := List.map fst m.
Definition Map_values (m : Map) : list V := List.map snd m.
End JSMap.

Arguments Map V : clear implicits.

Definition JSSet : Type := list string.

Definition Set_has (s : JSSet) (x : string) : bool :=
  existsb (String.eqb x) s.

Definition Set_add (s : JSSet) (x : string) : JSSet :=
  if Set_has s x then s else (s ++ [x])%list.

Definition Set_size (s : JSSet) : nat := List.length s.

(** ** The model *)

Record EnhancedLLM : Type := {
  order : nat;
  wordTransitions : Map (Map Z);
  startSequences : JSSet;
  endSequences : JSSet;
  totalTokens : Z
}.

Definition set_wordTransitions (this : EnhancedLLM) (w : Map (Map Z)) :=
  {| order := order this; wordTransitions := w;
     startSequences := startSequences this;
     endSequences := endSequences this; totalTokens := totalTokens this |}.

Definition set_startSequences (this : EnhancedLLM) (s : JSSet) :=
  {| order := order this; wordTransitions := wordTransitions this;
     startSequences := s;
     endSequences := endSequences this; totalTokens := totalTokens this |}.

Definition set_endSequences (this : EnhancedLLM) (s : JSSet) :=
  {| order := order this; wordTransitions := wordTransitions this;
     startSequences := startSequences this;
     endSequences := s; totalTokens := totalTokens this |}.

Definition set_totalTokens (this : EnhancedLLM) (n : Z) :=
  {| order := order this; wordTransitions := wordTransitions this;
     startSequences := startSequences this;
     endSequences := endSequences this; totalTokens := n |}.

(** [validateOrder]: the two comparisons come after [Number.isInteger] in
    the same disjunction, so they compare integers. *)
Definition validateOrder (order : value) : result unit :=
  match order with
  | JSNumber x =>
      if negb (Number.isInteger x)
         || (Number.to_Z x <? 1)%Z || (5 <? Number.to_Z x)%Z
      then Throw (ValidationError "Order must be an integer between 1 and 5")
      else Ok tt
  | _ => Throw (ValidationError "Order must be an integer between 1 and 5")
  end.

(** [new EnhancedLLM(order)]; an omitted argument is [JSUndefined] and
    takes the default of the parameter list, [order = 1]. *)
Definition constructor (order : value) : result EnhancedLLM :=
  let order := match order with
               | JSUndefined => JSNumber Number.one
               | _ => order
               end in
  (check validateOrder order;
   Ok {| order := match order with
                  | JSNumber x => Z.to_nat (Number.to_Z x)
                  | _ => 0
                  end;
         wordTransitions := [];
         startSequences := [];
         endSequences := [];
         totalTokens := 0 |})%result.

(** The chain of string operations of [preprocessText]:
    [text.replace(/\s+/g, ' ').replace(/([.!?])\s*/g, ' $1 ').trim().split(/\s+/)] *)
Definition tokenize (text : string) : list string :=
  Str.split_ws (Str.trim (Str.space_terminators (Str.collapse_spaces text))).

Definition preprocessText (this : EnhancedLLM) (text : value)
  : result (list string) :=
  match text with
  | JSString text =>
      if Str.is_empty (Str.trim text)
      then Throw (ValidationError "Input text cannot be empty")
      else
        let tokens := tokenize text in
        if (List.length tokens <? order this + 1)%nat
        then Throw (ValidationError
                      ("Input text must contain at least "
                       ++ Str.of_nat (order this + 1) ++ " tokens"))
        else Ok tokens
  | _ => Throw (ValidationError "Input text must be a string")
  end.

Definition getNGram (this : EnhancedLLM) (tokens : list string)
  (startIndex : nat) : string :=
  Str.join " " (slice tokens startIndex (order this)).

(** ** Training *)

(** [(transitions.get(nextToken) || 0)] *)
Definition count_or_0 (c : option Z) : Z :=
  match c with
  | Some c => if (c =? 0)%Z then 0%Z else c
  | None => 0%Z
  end.

(** The body of the [for] loop of [train] at index [i].  The two reads that
    would raise a TypeError on [undefined] are kept as such. *)
Definition train_step (tokens : list string) (i : nat) (this : EnhancedLLM)
  : EnhancedLLM * result unit :=
  let currentGram := getNGram this tokens i in
  match nth_error tokens (i + order this) with
  | None => (this, Throw TypeError)
  | Some nextToken =>
      let this :=
        if Str.ends_with_terminator nextToken
        then set_endSequences this (Set_add (endSequences this) currentGram)
        else this in
      let this :=
        if negb (Map_has (wordTransitions this) currentGram)
        then set_wordTransitions this
               (Map_set (wordTransitions this) currentGram [])
        else this in
      match Map_get (wordTransitions this) currentGram with
      | None => (this, Throw TypeError)
      | Some transitions =>
          let transitions :=
            Map_set transitions nextToken
              (count_or_0 (Map_get transitions nextToken) + 1)%Z in
          (set_wordTransitions this
             (Map_set (wordTransitions this) currentGram transitions),
           Ok tt)
      end
  end.

(** [n] iterations of the loop from index [i]. *)
Fixpoint train_loop (tokens : list string) (n i : nat) (this : EnhancedLLM)
  : EnhancedLLM * result unit :=
  match n with
  | O => (this, Ok tt)
  | S n' =>
      match train_step tokens i this with
      | (this, Ok _) => train_loop tokens n' (S i) this
      | (this, Throw e) => (this, Throw e)
      end
  end.

(** [train(text)]: the model after the call and how the call ended. *)
Definition train (this : EnhancedLLM) (text : value)
  : EnhancedLLM * result unit :=
  match preprocessText this text with
  | Throw e => (this, Throw e)
  | Ok tokens =>
      let this :=
        set_totalTokens this
          (totalTokens this + Z.of_nat (List.length tokens))%Z in
      let this :=
        set_startSequences this
          (Set_add (startSequences this) (getNGram this tokens 0)) in
      train_loop tokens (List.length tokens - order this) 0 this
  end.

(** ** Statistics *)

Record ModelStats : Type := {
  vocabularySize : nat;
  totalTransitions : Z;
  stats_startSequences : nat;
  stats_endSequences : nat;
  stats_totalTokens : Z;
  averageTransitionsPerState : num
}.

Definition getStats (this : EnhancedLLM) : ModelStats :=
  {| vocabularySize := Map_size (wordTransitions this);
     totalTransitions :=
       fold_left
         (fun sum transitions =>
            (sum + fold_left (fun s count => s + count) (Map_values transitions) 0)%Z)
         (Map_values (wordTransitions this)) 0%Z;
     stats_startSequences := Set_size (startSequences this);
     stats_endSequences := Set_size (endSequences this);
     stats_totalTokens := totalTokens this;
     averageTransitionsPerState :=
       if (0 <? Map_size (wordTransitions this))%nat
       then Number.div
              (Number.of_Z
                 (fold_left
                    (fun sum transitions => (sum + Z.of_nat (Map_size transitions))%Z)
                    (Map_values (wordTransitions this)) 0%Z))
              (Number.of_Z (Z.of_nat (Map_size (wordTransitions this))))
       else Number.zero |}.

(** ** Generation options *)

Definition JSInt (z : Z) : value := JSNumber (Number.of_Z z).

(** An options object; a property that is absent reads [JSUndefined]. *)
Record GenerationOptions : Type := {
  minLength : value;
  maxLength : value;
  temperature : value;
  endOnSentence : value
}.

(** The object [{}]. *)
Definition no_options : GenerationOptions :=
  {| minLength := JSUndefined; maxLength := JSUndefined;
     temperature := JSUndefined; endOnSentence := JSUndefined |}.

(** A destructuring default: it replaces [undefined] only. *)
Definition default (v d : value) : value :=
  match v with
  | JSUndefined => d
  | _ => v
  end.

Definition opt_minLength (o : GenerationOptions) := default (minLength o) (JSInt 10).
Definition opt_maxLength (o : GenerationOptions) := default (maxLength o) (JSInt 50).
Definition opt_temperature (o : GenerationOptions) :=
  default (temperature o) (JSNumber Number.one).
Definition opt_endOnSentence (o : GenerationOptions) :=
  default (endOnSentence o) (JSBoolean true).

Definition isInteger (v : value) : bool :=
  match v with
  | JSNumber x => Number.isInteger x
  | _ => false
  end.

(** The integer of a value that passed [isInteger]. *)
Definition int_of (v : value) : Z :=
  match v with
  | JSNumber x => Number.to_Z x
  | _ => 0%Z
  end.

Definition num_of (v : value) : num :=
  match v with
  | JSNumber x => x
  | _ => Number.NaN
  end.

Definition bool_of (v : value) : bool :=
  match v with
  | JSBoolean b => b
  | _ => false
  end.

(** [validateOptions]: as in [validateOrder], the comparisons on
    [minLength] and [maxLength] follow [Number.isInteger] and compare
    integers; the one on [temperature] is the comparison of Numbers, which
    is false on NaN. *)
Definition validateOptions (options : GenerationOptions) : result unit :=
  let minLength := opt_minLength options in
  let maxLength := opt_maxLength options in
  let temperature := opt_temperature options in
  let endOnSentence := opt_endOnSentence options in
  if negb (isInteger minLength) || (int_of minLength <? 1)%Z
  then Throw (ValidationError "minLength must be a positive integer")
  else if negb (isInteger maxLength) || (int_of maxLength <? int_of minLength)%Z
  then Throw (ValidationError "maxLength must be >= minLength")
  else if match temperature with
          | JSNumber t => Number.leb t Number.zero
          | _ => true
          end
  then Throw (ValidationError "temperature must be a positive number")
  else if match endOnSentence with
          | JSBoolean _ => false
          | _ => true
          end
  then Throw (ValidationError "endOnSentence must be a boolean")
  else Ok tt.

(** ** Sampling and generation *)

Section Generation.

(** The engine's [Math.pow] where ECMA-262 leaves it approximated. *)
Variable approx : num -> num -> num.

(** [Math.pow(prob, 1 / temperature)] *)
Definition weight (temperature : num) (prob : Z) : num :=
  Number.pow approx (Number.of_Z prob) (Number.div Number.one temperature).

(** [entries.reduce((sum, [_, prob]) => sum + weight, 0)] *)
Definition total_weight (entries : list (string * Z)) (temperature : num) : num :=
  fold_left (fun sum e => Number.add sum (weight temperature (snd e)))
    entries Number.zero.

(** The [for] loop of [selectNextToken]; [None] when it runs off the
    end of [entries]. *)
Fixpoint walk (entries : list (string * Z)) (temperature rand cumulative : num)
  : option string :=
  match entries with
  | [] => None
  | (token, prob) :: entries' =>
      let cumulative := Number.add cumulative (weight temperature prob) in
      if Number.leb rand cumulative then Some token
      else walk entries' temperature rand cumulative
  end.

(** [selectNextToken(transitions, temperature)], where the call of
    [Math.random] returns [random01].  The fallback reads
    [entries[entries.length - 1][0]], a TypeError when there is no
    entry. *)
Definition selectNextToken (transitions : Map Z) (temperature random01 : num)
  : result string :=
  let entries := transitions in
  let total := total_weight entries temperature in
  let rand := Number.mul random01 total in
  match walk entries temperature rand Number.zero with
  | Some token => Ok token
  | None =>
      match nth_error entries (List.length entries - 1) with
      | Some (token, _) => Ok token
      | None => Throw TypeError
      end
  end.

(** The draws of [Math.random], in call order. *)
Variable random : nat -> num.

(** [Array.from(startSequences)[Math.floor(random01 * startSequences.size)]],
    [None] for [undefined]. *)
Definition pick_start (this : EnhancedLLM) (random01 : num) : option string :=
  match Number.floor
          (Number.mul random01
             (Number.of_Z (Z.of_nat (Set_size (startSequences this))))) with
  | Some i =>
      if (i <? 0)%Z then None
      else nth_error (startSequences this) (Z.to_nat i)
  | None => None
  end.

(** The [while] loop of [generate] with its [try]/[catch]; [k] counts the
    draws made so far.  [None] when [fuel] iterations did not reach the
    end of the loop. *)
Fixpoint generate_loop (fuel : nat) (this : EnhancedLLM)
  (minLength maxLength : Z) (temperature : num) (endOnSentence : bool)
  (k : nat) (currentGram : string) (generatedTokens : list string)
  : option (result (list string)) :=
  match fuel with
  | O => None
  | S fuel' =>
      if (Z.of_nat (List.length generatedTokens) <? maxLength)%Z
      then
        match Map_get (wordTransitions this) currentGram with
        | None => Some (Ok generatedTokens)
        | Some transitions =>
            match selectNextToken transitions temperature (random k) with
            | Throw e =>
                Some (Throw (ValidationError
                               ("Error during text generation: "
                                ++ error_message e)))
            | Ok nextToken =>
                let generatedTokens := (generatedTokens ++ [nextToken])%list in
                let currentGram :=
                  Str.join " " (slice_last generatedTokens (order this)) in
                if endOnSentence
                   && Str.ends_with_terminator nextToken
                   && (minLength <=? Z.of_nat (List.length generatedTokens))%Z
                then Some (Ok generatedTokens)
                else generate_loop fuel' this minLength maxLength temperature
                       endOnSentence (S k) currentGram generatedTokens
            end
        end
      else Some (Ok generatedTokens)
  end.

(** The seed of [generate]: the current n-gram and the number of draws
    used to choose it. *)
Definition choose_start (this : EnhancedLLM) (startPhrase : value)
  : result (string * nat) :=
  match default startPhrase JSNull with
  | JSNull =>
      match pick_start this (random 0) with
      | Some currentGram => Ok (currentGram, 1)
      | None => Throw TypeError
      end
  | JSString startPhrase =>
      let currentGram := Str.toLowerCase startPhrase in
      if negb (Map_has (wordTransitions this) currentGram)
      then Throw (ValidationError "Start phrase not found in training data")
      else Ok (currentGram, 0)
  | _ => Throw (ValidationError "Start phrase must be a string")
  end.

(** [generate] up to its last step: the array [generatedTokens] at the
    [return]. *)
Definition generateTokens (this : EnhancedLLM) (startPhrase : value)
  (options : GenerationOptions) : option (result (list string)) :=
  if (Map_size (wordTransitions this) =? 0)%nat
  then Some (Throw (ValidationError "Model must be trained before generating text"))
  else
    match validateOptions options with
    | Throw e => Some (Throw e)
    | Ok _ =>
        let minLength := int_of (opt_minLength options) in
        let maxLength := int_of (opt_maxLength options) in
        let temperature := num_of (opt_temperature options) in
        let endOnSentence := bool_of (opt_endOnSentence options) in
        match choose_start this startPhrase with
        | Throw e => Some (Throw e)
        | Ok (currentGram, k) =>
            let generatedTokens := Str.split " " currentGram in
            generate_loop
              (S (Z.to_nat (maxLength - Z.of_nat (List.length generatedTokens))))
              this minLength maxLength temperature endOnSentence
              k currentGram generatedTokens
        end
    end.

(** [generate(startPhrase, options)] *)
Definition generate (this : EnhancedLLM) (startPhrase : value)
  (options : GenerationOptions) : option (result string) :=
  match generateTokens this startPhrase options with
  | Some (Ok generatedTokens) => Some (Ok (Str.join " " generatedTokens))
  | Some (Throw e) => Some (Throw e)
  | None => None
  end.

End Generation.

(** ** Reachable models *)

Inductive operation : Type :=
| op_train (text : value)
| op_generate (approx : num -> num -> num) (random : nat -> num)
    (startPhrase : value) (options : GenerationOptions)
| op_getStats.

(** The model an operation leaves behind.  [generate] and [getStats] only
    read [this]. *)
Definition run (o : operation) (this : EnhancedLLM) : EnhancedLLM :=
  match o with
  | op_train text => fst (train this text)
  | op_generate _ _ _ _ => this
  | op_getStats => this
  end.

Inductive reachable : EnhancedLLM -> Prop :=
| reach_new : forall order this,
    constructor order = Ok this -> reachable this
| reach_run : forall o this,
    reachable this -> reachable (run o this).

(** The occurrence count of [nextToken] after [gram]; an absent key counts
    for zero. *)
Definition count (this : EnhancedLLM) (gram nextToken : string) : Z :=
  match Map_get (wordTransitions this) gram with
  | Some transitions =>
      match Map_get transitions nextToken with
      | Some c => c
      | None => 0%Z
      end
  | None => 0%Z
  end.

(** ** The texts of the examples *)

Definition fox_text : string :=
  "The quick brown fox jumps over the lazy dog. The dog barks at the fox. The fox runs away quickly.".

Definition test_text : string := "This is a test.".

(** ** Definitions used by the statements *)

(** The inner map of a gram, empty when the gram is new. *)
Definition transitions_of (this : EnhancedLLM) (gram : string) : Map Z :=
  match Map_get (wordTransitions this) gram with
  | Some transitions => transitions
  | None => []
  end.

(** What an iteration of the loop writes, in one expression. *)
Definition record_transition (this : EnhancedLLM) (gram nextToken : string)
  : EnhancedLLM :=
  {| order := order this;
     wordTransitions :=
       Map_set (wordTransitions this) gram
         (Map_set (transitions_of this gram) nextToken
            (count_or_0 (Map_get (transitions_of this gram) nextToken) + 1)%Z);
     startSequences := startSequences this;
     endSequences :=
       if Str.ends_with_terminator nextToken
       then Set_add (endSequences this) gram
       else endSequences this;
     totalTokens := totalTokens this |}.

(** The transitions that [n] iterations from index [i] record for
    [(g, x)], for a model of order [ord]. *)
Fixpoint occurrences (ord : nat) (tokens : list string) (n i : nat)
  (g x : string) : Z :=
  match n with
  | O => 0%Z
  | S n' =>
      ((if ((Str.join " " (slice tokens i ord) =? g)
            && (nth i%nat (skipn ord tokens) "" =? x))%string
        then 1 else 0)
       + occurrences ord tokens n' (S i) g x)%Z
  end.

(** The texts that [preprocessText] refuses: not a string, empty or white
    space only, or fewer than [order + 1] tokens. *)
Definition rejected_text (this : EnhancedLLM) (text : value) : Prop :=
  match text with
  | JSString s =>
      Str.all_chars Str.is_space s = true
      \/ List.length (tokenize s) < order this + 1
  | _ => True
  end.

Definition fresh (n : nat) : EnhancedLLM :=
  {| order := n; wordTransitions := []; startSequences := [];
     endSequences := []; totalTokens := 0 |}.

Definition fox_model : EnhancedLLM :=
  fst (train (fresh 2) (JSString fox_text)).

Definition counts_positive (this : EnhancedLLM) : Prop :=
  Forall (fun kv => Forall (fun tc => (1 <= snd tc)%Z) (snd kv))
    (wordTransitions this).

(** The model after the two writes that precede the loop of [train]. *)
Definition train_header (this : EnhancedLLM) (tokens : list string) : EnhancedLLM :=
  set_startSequences
    (set_totalTokens this (totalTokens this + Z.of_nat (List.length tokens))%Z)
    (Set_add (startSequences this) (getNGram this tokens 0)).

Definition terminator_free (tok : string) : bool :=
  Str.all_chars (fun c => negb (Str.is_terminator c)) tok.

Definition space_free (tok : string) : bool :=
  Str.all_chars (fun c => negb (Str.is_space c)) tok.

(** A terminator occurs in a token only as the whole token. *)
Definition token_shape (tok : string) : bool :=
  (String.length tok =? 1)%nat || terminator_free tok.

(** The smallest positive Number, 2^-1074 (printed 5e-324). *)
Definition MIN_VALUE : num := S754_finite false 1 (-1074).

(** Exact on the one exponent it is used with, 1. *)
Definition pow_1 (base exponent : num) : num := base.

Definition no_blank (tok : string) : bool :=
  Str.all_chars (fun c => negb (c =? " ")%char) tok.

(** A key that splits into [ord] tokens. *)
Definition gram_ok (ord : nat) (gram : string) : Prop :=
  List.length (Str.split " " gram) = ord.

Record well_formed (this : EnhancedLLM) : Prop := {
  wf_order : 1 <= order this <= 5;
  wf_keys : Forall (gram_ok (order this)) (Map_keys (wordTransitions this));
  wf_inner : Forall (fun kv : string * Map Z => snd kv <> []) (wordTransitions this);
  wf_starts : Forall (gram_ok (order this)) (startSequences this);
  wf_trained : wordTransitions this <> [] -> startSequences this <> []
}.

Definition test_model : EnhancedLLM :=
  run (op_train (JSString test_text)) (fresh 1).

Definition abc_model : EnhancedLLM :=
  run (op_train (JSString "a b c")) (fresh 2).

Definition zero_source : nat -> num := fun _ => Number.zero.

(** Options that pass [validateOptions] with [maxLength] below order 2. *)
Definition one_token_options : GenerationOptions :=
  {| minLength := JSInt 1; maxLength := JSInt 1;
     temperature := JSUndefined; endOnSentence := JSUndefined |}.

(** The options of the round-trip example. *)
Definition round_trip_options : GenerationOptions :=
  {| minLength := JSInt 1; maxLength := JSInt 50;
     temperature := JSUndefined; endOnSentence := JSBoolean false |}.

(** ** Definitions used by the further properties *)

(** What [getStats] reports for a model without transitions. *)
Definition stats_zero : ModelStats :=
  {| vocabularySize := 0; totalTransitions := 0;
     stats_startSequences := 0; stats_endSequences := 0;
     stats_totalTokens := 0; averageTransitionsPerState := Number.zero |}.

(** The last [order] tokens of [toks], joined: the key that [generate]
    looks up after [toks]. *)
Definition gram_after (this : EnhancedLLM) (toks : list string) : string :=
  Str.join " " (slice_last toks (order this)).

(** [x] was recorded in training as a successor of the n-gram that ends
    [toks]. *)
Definition observed (this : EnhancedLLM) (toks : list string) (x : string) : Prop :=
  exists transitions,
    Map_get (wordTransitions this) (gram_after this toks) = Some transitions
    /\ In x (Map_keys transitions).

(** Every token of [more], appended in turn to [toks], is an observed
    successor of the n-gram before it. *)
Fixpoint follows (this : EnhancedLLM) (toks more : list string) : Prop :=
  match more with
  | [] => True
  | x :: more' => observed this toks x /\ follows this (toks ++ [x])%list more'
  end.

(** Why the loop of [generate] stopped below [maxLength]: the last n-gram
    has no successor, or a sentence ended at or past [minLength]. *)
Definition stopped_early (this : EnhancedLLM) (minLength : Z)
  (endOnSentence : bool) (out more : list string) : Prop :=
  Map_get (wordTransitions this) (gram_after this out) = None
  \/ (endOnSentence = true
      /\ more <> []
      /\ Str.ends_with_terminator (last out "") = true
      /\ (minLength <= Z.of_nat (List.length out))%Z).

Fixpoint ends_with_space (s : string) : bool :=
  match s with
  | EmptyString => false
  | String c EmptyString => Str.is_space c
  | String _ s' => ends_with_space s'
  end.

(** A token as the tokenizer produces them: not empty, no white space. *)
Definition clean_token (tok : string) : Prop :=
  tok <> "" /\ space_free tok = true.

(** Every key and every start sequence splits into clean tokens, and every
    stored successor is a clean token. *)
Record clean (this : EnhancedLLM) : Prop := {
  clean_keys :
    Forall (fun g => Forall clean_token (Str.split " " g))
      (Map_keys (wordTransitions this));
  clean_starts :
    Forall (fun g => Forall clean_token (Str.split " " g)) (startSequences this);
  clean_next :
    Forall (fun kv : string * Map Z => Forall clean_token (Map_keys (snd kv)))
      (wordTransitions this)
}.

(** Keys are unique in both levels of the table and in the two sets, as
    in a [Map] and a [Set]. *)
Record distinct (this : EnhancedLLM) : Prop := {
  distinct_keys : NoDup (Map_keys (wordTransitions this));
  distinct_next :
    Forall (fun kv : string * Map Z => NoDup (Map_keys (snd kv)))
      (wordTransitions this);
  distinct_starts : NoDup (startSequences this);
  distinct_ends : NoDup (endSequences this)
}.

(** Every start sequence has a recorded successor, and every end sequence
    one that ends a sentence. *)
Definition sequences_linked (this : EnhancedLLM) : Prop :=
  (forall g, In g (startSequences this) ->
             exists x, (1 <= count this g x)%Z)
  /\ (forall g, In g (endSequences this) ->
                exists x, Str.ends_with_terminator x = true
                          /\ (1 <= count this g x)%Z).

(** Options with the given [temperature], the rest absent. *)
Definition with_temperature (t : num) : GenerationOptions :=
  {| minLength := JSUndefined; maxLength := JSUndefined;
     temperature := JSNumber t; endOnSentence := JSUndefined |}.

(** The sum of [w] over the values of a map. *)
Definition total {V : Type} (w : V -> Z) (m : Map V) : Z :=
  fold_left (fun sum v => (sum + w v)%Z) (Map_values m) 0%Z.

(** [b] holds everything [a] holds: the start and end sequences, the keys,
    and under every key its successors. *)
Definition extends (a b : EnhancedLLM) : Prop :=
  incl (startSequences a) (startSequences b)
  /\ incl (endSequences a) (endSequences b)
  /\ forall g t,
      Map_get (wordTransitions a) g = Some t ->
      exists t', Map_get (wordTransitions b) g = Some t'
                 /\ incl (Map_keys t) (Map_keys t').

(** The keys of the table in order, each with its successors in order, and
    the two sets: the model without its counts. *)
Definition shape (this : EnhancedLLM)
  : list (string * list string) * JSSet * JSSet :=
  (List.map (fun kv : string * Map Z => (fst kv, Map_keys (snd kv)))
     (wordTransitions this),
   startSequences this, endSequences this).

(** The transitions of [tokens] at the indices from [i] to [i + n - 1] are
    all in the model, and so are the end sequences among them. *)
Definition absorbed (tokens : list string) (this : EnhancedLLM) (i n : nat) : Prop :=
  forall j x,
    i <= j < i + n ->
    nth_error tokens (j + order this) = Some x ->
    (exists t, Map_get (wordTransitions this) (getNGram this tokens j) = Some t
               /\ In x (Map_keys t))
    /\ (Str.ends_with_terminator x = true ->
        In (getNGram this tokens j) (endSequences this)).

(** Position [i] of [tokens] is a transition from the n-gram [g] to the
    token [x]. *)
Definition transition_at (this : EnhancedLLM) (tokens : list string)
  (g x : string) (i : nat) : bool :=
  ((getNGram this tokens i =? g) && (nth (i + order this) tokens "" =? x))%string.

(** The positions of [tokens] from which [train] records a transition. *)
Definition positions (this : EnhancedLLM) (tokens : list string) : list nat :=
  seq 0 (List.length tokens - order this).

(** A token in progress goes before the finished ones, unless it is
    empty. *)
Definition push (tok : string) (rest : list string) : list string :=
  if Str.is_empty tok then rest else tok :: rest.

(** A text read character by character: white space ends a word, a
    sentence terminator ends a word and is a token of its own, any other
    character continues a word.  The first component is the word that the
    text begins with, empty if it begins with none; the second holds the
    tokens after it. *)
Fixpoint pieces (s : string) : string * list string :=
  match s with
  | EmptyString => (EmptyString, [])
  | String c s' =>
      let (tok, rest) := pieces s' in
      if Str.is_space c then (EmptyString, push tok rest)
      else if Str.is_terminator c
           then (EmptyString, String c EmptyString :: push tok rest)
           else (String c tok, rest)
  end.

(** The words and the sentence terminators of a text, in order. *)
Definition words_and_marks (s : string) : list string :=
  let (tok, rest) := pieces s in push tok rest.

Definition nonempty_only (l : list string) : list string :=
  filter (fun tok => negb (Str.is_empty tok)) l.

(** A word: not empty, no white space, no sentence terminator. *)
Definition is_word (w : string) : Prop :=
  w <> "" /\ space_free w = true /\ terminator_free w = true.

(** [p] is empty or ends in white space or in a sentence terminator: what
    follows [p] starts a new token. *)
Fixpoint ends_at_boundary (p : string) : bool :=
  match p with
  | EmptyString => true
  | String c EmptyString => Str.is_space c || Str.is_terminator c
  | String _ p' => ends_at_boundary p'
  end.

(** The fox text trained into a new model of order 2, as an operation. *)
Definition fox_trained : EnhancedLLM :=
  run (op_train (JSString fox_text)) (fresh 2).

(** The second argument of a call of [generate]: left out, [null], an
    object, or a primitive (a boolean, a number or a string), whose
    properties [minLength], [maxLength], [temperature] and [endOnSentence]
    read [undefined], as those of [{}] do. *)
Inductive options_argument : Type :=
| options_omitted
| options_null
| options_object (options : GenerationOptions)
| options_primitive.

(** The options object that the body of [generate] reads. *)
Definition options_of (argument : options_argument) : GenerationOptions :=
  match argument with
  | options_object options => options
  | _ => no_options
  end.

(** [generate(startPhrase, options)] for any second argument.  The default
    [options = {}] replaces [undefined] only; [null] reaches the
    destructuring [const {...} = options] of [validateOptions], a TypeError,
    which is thrown after the check that the model is trained and outside
    the [try]. *)
Definition generate_call (approx : num -> num -> num) (random : nat -> num)
  (this : EnhancedLLM) (startPhrase : value) (argument : options_argument)
  : option (result string) :=
  match argument with
  | options_null =>
      if (Map_size (wordTransitions this) =? 0)%nat
      then Some (Throw (ValidationError
                          "Model must be trained before generating text"))
      else Some (Throw TypeError)
  | _ => generate approx random this startPhrase (options_of argument)
  end.

(** * Properties *)

(** ** Examples of tokenization *)

Example split_ws_ex1 :
  Str.split_ws "  a b " = [""; "a"; "b"; ""].
Proof. reflexivity. Qed.

Example tokenize_ex1 :
  Str.split_ws (Str.trim (Str.space_terminators (Str.collapse_spaces "This is a  test.  Go!now")))
  = ["This"; "is"; "a"; "test"; "."; "Go"; "!"; "now"].
Proof. reflexivity. Qed.

(** ** The constructor *)

(** C10: constructing a model with no order argument succeeds, and the
    model has order 1, no transition, no start or end sequence and no
    token. *)
Theorem constructor_default_order :
  constructor JSUndefined
  = Ok {| order := 1; wordTransitions := []; startSequences := [];
          endSequences := []; totalTokens := 0 |}.
Proof. reflexivity. Qed.

(** ** Maps *)

Section MapFacts.
Context {V : Type}.
Implicit Types (m : Map V) (k : string) (v : V).

Lemma Map_get_set m k v k' :
  Map_get (Map_set m k v) k' = if (k =? k')%string then Some v else Map_get m k'.
Proof.
  induction m as [|[k0 v0] m IH]; simpl.
  - reflexivity.
  - destruct (k0 =? k)%string eqn:E0; simpl.
    + apply String.eqb_eq in E0; subst k0.
      destruct (k =? k')%string; reflexivity.
    + destruct (k0 =? k')%string eqn:E1.
      * apply String.eqb_eq in E1; subst k0.
        rewrite String.eqb_sym, E0. reflexivity.
      * exact IH.
Qed.

Lemma Map_get_set_same m k v : Map_get (Map_set m k v) k = Some v.
Proof. rewrite Map_get_set, String.eqb_refl. reflexivity. Qed.

Lemma Map_set_set m k v v' : Map_set (Map_set m k v) k v' = Map_set m k v'.
Proof.
  induction m as [|[k0 v0] m IH]; simpl.
  - rewrite String.eqb_refl. reflexivity.
  - destruct (k0 =? k)%string eqn:E0; simpl.
    + rewrite String.eqb_refl. reflexivity.
    + rewrite E0, IH. reflexivity.
Qed.

Lemma Map_set_not_nil m k v : Map_set m k v <> [].
Proof. destruct m as [|[k0 v0] m]; simpl; [|destruct (k0 =? k)%string]; discriminate. Qed.

Lemma Map_get_Forall (Q : V -> Prop) m k v :
  Forall (fun kv => Q (snd kv)) m -> Map_get m k = Some v -> Q v.
Proof.
  induction 1 as [|[k0 v0] m H0 _ IH]; simpl; [discriminate|].
  destruct (k0 =? k)%string; [|exact IH].
  intros [= <-]. exact H0.
Qed.

Lemma Map_set_Forall (Q : V -> Prop) m k v :
  Forall (fun kv => Q (snd kv)) m -> Q v ->
  Forall (fun kv => Q (snd kv)) (Map_set m k v).
Proof.
  intros Hm Hv. induction Hm as [|[k0 v0] m H0 Hm IH]; simpl.
  - constructor; [exact Hv | constructor].
  - destruct (k0 =? k)%string; constructor; auto.
Qed.

Lemma Map_get_In m k v : Map_get m k = Some v -> In (k, v) m.
Proof.
  induction m as [|[k0 v0] m IH]; simpl; [discriminate|].
  destruct (k0 =? k)%string eqn:E.
  - apply String.eqb_eq in E. intros [= <-]. subst. now left.
  - intros H. right. auto.
Qed.

Lemma Map_keys_set (Q : string -> Prop) m k v :
  Forall Q (Map_keys m) -> Q k -> Forall Q (Map_keys (Map_set m k v)).
Proof.
  unfold Map_keys. intros Hm Hk.
  induction m as [|[k0 v0] m IH]; simpl.
  - constructor; [exact Hk | constructor].
  - inversion Hm; subst.
    destruct (k0 =? k)%string; simpl; constructor; auto.
Qed.

End MapFacts.

Lemma count_or_0_eq (c : option Z) :
  count_or_0 c = match c with Some c => c | None => 0%Z end.
Proof.
  destruct c as [c|]; simpl; [|reflexivity].
  destruct (c =? 0)%Z eqn:E; [|reflexivity].
  apply Z.eqb_eq in E. congruence.
Qed.

(** ** One step of training *)

Lemma train_step_ok tokens i this nextToken :
  nth_error tokens (i + order this) = Some nextToken ->
  train_step tokens i this
  = (record_transition this (getNGram this tokens i) nextToken, Ok tt).
Proof.
  intros Hn. unfold train_step. rewrite Hn.
  unfold record_transition, transitions_of, getNGram, Map_has.
  destruct (Str.ends_with_terminator nextToken); simpl;
    destruct (Map_get (wordTransitions this) _) as [t|] eqn:Hg; simpl.
  - rewrite Hg. reflexivity.
  - rewrite Map_get_set_same, Map_set_set. reflexivity.
  - rewrite Hg. reflexivity.
  - rewrite Map_get_set_same, Map_set_set. reflexivity.
Qed.

Lemma count_record_transition this gram nextToken g x :
  count (record_transition this gram nextToken) g x
  = (count this g x
     + if ((gram =? g) && (nextToken =? x))%string then 1 else 0)%Z.
Proof.
  unfold count at 1. simpl. rewrite Map_get_set.
  destruct (gram =? g)%string eqn:Eg; simpl.
  - apply String.eqb_eq in Eg; subst g.
    rewrite Map_get_set, count_or_0_eq.
    unfold count, transitions_of.
    destruct (nextToken =? x)%string eqn:Ex.
    + apply String.eqb_eq in Ex; subst x.
      destruct (Map_get (wordTransitions this) gram) as [t|]; simpl;
        [destruct (Map_get t nextToken)|]; lia.
    + destruct (Map_get (wordTransitions this) gram) as [t|]; simpl;
        [destruct (Map_get t x)|]; lia.
  - unfold count. destruct (Map_get (wordTransitions this) g) as [t|];
      [destruct (Map_get t x)|]; lia.
Qed.

Lemma occurrences_nonneg ord tokens n i g x :
  (0 <= occurrences ord tokens n i g x)%Z.
Proof.
  revert i. induction n as [|n IH]; intros i; simpl; [lia|].
  specialize (IH (S i)).
  destruct ((_ =? g) && _)%string; lia.
Qed.

Lemma nth_error_in_range {A : Type} (l : list A) (i : nat) :
  i < List.length l -> exists a, nth_error l i = Some a.
Proof.
  intros H. destruct (nth_error l i) as [a|] eqn:E; [now exists a|].
  apply nth_error_None in E. lia.
Qed.

Lemma nth_skipn_default (l : list string) (ord i : nat) (a : string) :
  nth_error l (i + ord) = Some a -> nth i (skipn ord l) "" = a.
Proof.
  intros H. apply nth_error_nth with (d := "") in H.
  rewrite nth_skipn. rewrite Nat.add_comm in H. rewrite Nat.add_comm.
  rewrite Nat.add_comm. exact H.
Qed.

(** ** The training loop *)

Lemma train_loop_ind (P : EnhancedLLM -> Prop) (tokens : list string) (ord : nat) :
  (forall i this x,
      P this -> order this = ord ->
      nth_error tokens (i + ord) = Some x ->
      P (record_transition this (getNGram this tokens i) x)) ->
  forall n i this,
    order this = ord -> i + n + ord <= List.length tokens -> P this ->
    exists this',
      train_loop tokens n i this = (this', Ok tt)
      /\ order this' = ord /\ P this'.
Proof.
  intros Hstep. induction n as [|n IH]; intros i this Ho Hlen HP; simpl.
  - exists this. auto.
  - destruct (nth_error_in_range tokens (i + ord)) as [x Hx]; [lia|].
    rewrite train_step_ok with (nextToken := x) by (rewrite Ho; exact Hx).
    apply IH.
    + exact Ho.
    + lia.
    + apply Hstep; auto.
Qed.

Lemma train_loop_count (tokens : list string) :
  forall n i this,
    i + n + order this <= List.length tokens ->
    exists this',
      train_loop tokens n i this = (this', Ok tt)
      /\ order this' = order this
      /\ totalTokens this' = totalTokens this
      /\ startSequences this' = startSequences this
      /\ forall g x,
          count this' g x
          = (count this g x + occurrences (order this) tokens n i g x)%Z.
Proof.
  induction n as [|n IH]; intros i this Hlen; simpl.
  - exists this. repeat split; auto. intros; lia.
  - destruct (nth_error_in_range tokens (i + order this)) as [x Hx]; [lia|].
    rewrite train_step_ok with (nextToken := x) by exact Hx.
    destruct (IH (S i) (record_transition this (getNGram this tokens i) x))
      as (this' & Hrun & Ho & Ht & Hs & Hc); [simpl; lia|].
    exists this'. simpl in *. repeat split; auto.
    intros g y. rewrite Hc, count_record_transition.
    unfold getNGram. rewrite (nth_skipn_default _ _ _ _ Hx). lia.
Qed.

Lemma preprocessText_length this text tokens :
  preprocessText this text = Ok tokens ->
  order this + 1 <= List.length tokens.
Proof.
  unfold preprocessText. destruct text; try discriminate.
  destruct (Str.is_empty _); [discriminate|].
  destruct (_ <? _)%nat eqn:E; [discriminate|].
  intros [= <-]. apply Nat.ltb_ge in E. exact E.
Qed.

Lemma preprocessText_order this this' text :
  order this' = order this ->
  preprocessText this' text = preprocessText this text.
Proof. intros H. unfold preprocessText. rewrite H. reflexivity. Qed.

Lemma train_ok this text tokens :
  preprocessText this text = Ok tokens ->
  exists this',
    train this text = (this', Ok tt)
    /\ order this' = order this
    /\ totalTokens this' = (totalTokens this + Z.of_nat (List.length tokens))%Z
    /\ forall g x,
        count this' g x
        = (count this g x
           + occurrences (order this) tokens
               (List.length tokens - order this) 0 g x)%Z.
Proof.
  intros Hp. pose proof (preprocessText_length _ _ _ Hp) as Hlen.
  unfold train. rewrite Hp.
  match goal with |- context [train_loop _ _ _ ?m] => set (this1 := m) end.
  destruct (train_loop_count tokens (List.length tokens - order this) 0 this1)
    as (this' & Hrun & Ho & Ht & _ & Hc); [simpl; lia|].
  exists this'. simpl in *. repeat split; auto.
Qed.

Lemma train_failed this text e :
  preprocessText this text = Throw e -> train this text = (this, Throw e).
Proof. intros H. unfold train. rewrite H. reflexivity. Qed.

(** ** Rejected training text *)

Lemma trimEnd_spaces s : Str.all_chars Str.is_space s = true -> Str.trimEnd s = "".
Proof.
  induction s as [|c s IH]; simpl; [reflexivity|].
  intros H. apply andb_prop in H as [Hc Hs].
  rewrite (IH Hs), Hc. reflexivity.
Qed.

Lemma trimStart_spaces s : Str.all_chars Str.is_space s = true -> Str.trimStart s = "".
Proof.
  induction s as [|c s IH]; simpl; [reflexivity|].
  intros H. apply andb_prop in H as [Hc Hs].
  rewrite Hc. exact (IH Hs).
Qed.

Lemma trim_spaces s : Str.all_chars Str.is_space s = true -> Str.trim s = "".
Proof. intros H. unfold Str.trim. rewrite (trimStart_spaces s H). reflexivity. Qed.

(** C2: on a text that is not a string, is empty or white space only, or has
    fewer than [order + 1] tokens, [train] throws a ValidationError and the
    model after the call is the model before it, field for field. *)
Theorem train_rejects_without_mutation (this : EnhancedLLM) (text : value) :
  rejected_text this text ->
  exists message, train this text = (this, Throw (ValidationError message)).
Proof.
  intros H.
  assert (exists message, preprocessText this text = Throw (ValidationError message))
    as [message Hm].
  { unfold preprocessText. destruct text; try (eexists; reflexivity).
    simpl in H. destruct (Str.is_empty (Str.trim s)) eqn:Ee.
    - eexists; reflexivity.
    - destruct H as [H|H].
      + rewrite (trim_spaces s H) in Ee. discriminate.
      + apply Nat.ltb_lt in H. rewrite H. eexists; reflexivity. }
  exists message. apply train_failed. exact Hm.
Qed.

Lemma train_rejects_without_mutation_witness :
  rejected_text (fresh 2) (JSString "hello  world")
  /\ exists message,
      train (fresh 2) (JSString "hello  world")
      = (fresh 2, Throw (ValidationError message)).
Proof.
  assert (H : rejected_text (fresh 2) (JSString "hello  world")).
  { right. vm_compute. lia. }
  split; [exact H|].
  exact (train_rejects_without_mutation (fresh 2) (JSString "hello  world") H).
Defined.

(** ** Training accumulates *)

(** C3: for a text that [preprocessText] accepts, two calls of [train] from
    a model add to every transition count, and to [totalTokens], twice what
    one call adds; from a model where the count (the total) is zero, the
    count (the total) after two calls is twice the one after one call. *)
Theorem train_twice_doubles (this : EnhancedLLM) (text : value)
  (tokens : list string) :
  preprocessText this text = Ok tokens ->
  let once := fst (train this text) in
  let twice := fst (train once text) in
  snd (train this text) = Ok tt
  /\ snd (train once text) = Ok tt
  /\ (forall g x,
        (count twice g x - count this g x
         = 2 * (count once g x - count this g x))%Z)
  /\ (totalTokens twice - totalTokens this
      = 2 * (totalTokens once - totalTokens this))%Z
  /\ (forall g x,
        count this g x = 0%Z -> (count twice g x = 2 * count once g x)%Z)
  /\ (totalTokens this = 0%Z -> (totalTokens twice = 2 * totalTokens once)%Z).
Proof.
  intros Hp.
  destruct (train_ok this text tokens Hp) as (m1 & H1 & Ho1 & Ht1 & Hc1).
  assert (Hp1 : preprocessText m1 text = Ok tokens).
  { rewrite (preprocessText_order this m1 text Ho1). exact Hp. }
  destruct (train_ok m1 text tokens Hp1) as (m2 & H2 & Ho2 & Ht2 & Hc2).
  cbv zeta. rewrite H1. cbn [fst snd]. rewrite H2. cbn [fst snd].
  assert (Hc : forall g x,
             (count m2 g x - count this g x
              = 2 * (count m1 g x - count this g x))%Z).
  { intros g x. rewrite Hc2, Hc1, Ho1. lia. }
  repeat split; auto.
  - lia.
  - intros g x H0. specialize (Hc g x). lia.
  - lia.
Qed.

Lemma train_twice_doubles_witness :
  preprocessText (fresh 1) (JSString test_text)
  = Ok ["This"; "is"; "a"; "test"; "."]
  /\ count (fst (train (fst (train (fresh 1) (JSString test_text)))
                   (JSString test_text))) "is" "a" = 2%Z.
Proof.
  assert (H : preprocessText (fresh 1) (JSString test_text)
              = Ok ["This"; "is"; "a"; "test"; "."]) by reflexivity.
  split; [exact H|].
  destruct (train_twice_doubles (fresh 1) (JSString test_text) _ H)
    as (_ & _ & _ & _ & Hc & _).
  rewrite (Hc "is" "a"); reflexivity.
Defined.

(** ** The fox scenario *)

(** C7, as the code has it: after one [train] call with order 2 on the fox
    text from a new model, [startSequences] has size 1, the first 2-gram of
    the call, and [endSequences] has size 3; [getStats] reports the same. *)
Theorem fox_start_and_end_sequences :
  constructor (JSInt 2) = Ok (fresh 2)
  /\ snd (train (fresh 2) (JSString fox_text)) = Ok tt
  /\ startSequences fox_model = ["The quick"]
  /\ endSequences fox_model = ["lazy dog"; "the fox"; "away quickly"]
  /\ Set_size (startSequences fox_model) = 1
  /\ Set_size (endSequences fox_model) = 3
  /\ stats_startSequences (getStats fox_model) = 1
  /\ stats_endSequences (getStats fox_model) = 3.
Proof.
  split; [vm_compute; reflexivity|].
  split; [vm_compute; reflexivity|].
  split; [vm_compute; reflexivity|].
  split; [vm_compute; reflexivity|].
  split; [vm_compute; reflexivity|].
  split; [vm_compute; reflexivity|].
  split; vm_compute; reflexivity.
Qed.

(** C7 as stated fails: the start set does not have three elements. *)
Lemma fox_start_sequences_not_3 :
  ~ (Set_size (startSequences fox_model) = 3
     /\ Set_size (endSequences fox_model) = 3).
Proof. vm_compute. intros [H _]. discriminate H. Qed.

(** ** Counts are positive and only grow *)

Lemma train_unfold this text tokens :
  preprocessText this text = Ok tokens ->
  train this text
  = train_loop tokens (List.length tokens - order this) 0
      (train_header this tokens).
Proof. intros Hp. unfold train. rewrite Hp. reflexivity. Qed.

Lemma train_invariant (P Q : EnhancedLLM -> Prop) this text :
  (forall tokens, preprocessText this text = Ok tokens ->
                  P this -> Q (train_header this tokens)) ->
  (forall tokens i m x,
      preprocessText this text = Ok tokens ->
      Q m -> order m = order this ->
      i + order this < List.length tokens ->
      nth_error tokens (i + order this) = Some x ->
      Q (record_transition m (getNGram m tokens i) x)) ->
  (forall m, Q m -> P m) ->
  P this -> P (fst (train this text)).
Proof.
  intros Hhead Hstep HQP HP.
  destruct (preprocessText this text) as [tokens|e] eqn:Hp.
  - pose proof (preprocessText_length _ _ _ Hp) as Hlen.
    rewrite (train_unfold _ _ _ Hp).
    destruct (train_loop_ind Q tokens (order this)) with
      (n := List.length tokens - order this) (i := 0)
      (this := train_header this tokens)
      as (this' & Hrun & _ & HQ'); auto.
    + intros i m x Hm Ho Hx. apply Hstep; auto.
      apply nth_error_Some. rewrite Hx. discriminate.
    + simpl. lia.
    + rewrite Hrun. apply HQP. exact HQ'.
  - rewrite (train_failed _ _ _ Hp). exact HP.
Qed.

Lemma record_transition_positive this gram x :
  counts_positive this -> counts_positive (record_transition this gram x).
Proof.
  unfold counts_positive. intros H. simpl.
  apply Map_set_Forall; [exact H|].
  assert (Ht : Forall (fun tc : string * Z => (1 <= snd tc)%Z)
                 (transitions_of this gram)).
  { unfold transitions_of.
    destruct (Map_get (wordTransitions this) gram) as [t|] eqn:E;
      [|constructor].
    exact (Map_get_Forall _ _ _ _ H E). }
  apply Map_set_Forall; [exact Ht|].
  rewrite count_or_0_eq.
  destruct (Map_get (transitions_of this gram) x) as [c|] eqn:E; [|lia].
  pose proof (Map_get_Forall (fun c => (1 <= c)%Z) _ _ _ Ht E). simpl in *. lia.
Qed.

Lemma train_positive this text :
  counts_positive this -> counts_positive (fst (train this text)).
Proof.
  intros H. apply train_invariant with (Q := counts_positive).
  - intros tokens _ _. exact H.
  - intros tokens i m x _ Hm _ _ _. apply record_transition_positive. exact Hm.
  - auto.
  - exact H.
Qed.

Lemma train_monotone this text :
  (totalTokens this <= totalTokens (fst (train this text)))%Z
  /\ forall g x, (count this g x <= count (fst (train this text)) g x)%Z.
Proof.
  destruct (preprocessText this text) as [tokens|e] eqn:Hp.
  - destruct (train_ok _ _ _ Hp) as (this' & Hrun & _ & Ht & Hc).
    rewrite Hrun. simpl. split; [lia|].
    intros g x. rewrite Hc.
    pose proof (occurrences_nonneg (order this) tokens
                  (List.length tokens - order this) 0 g x). lia.
  - rewrite (train_failed _ _ _ Hp). simpl. split; [lia|]. intros; lia.
Qed.

Lemma constructor_fresh arg this :
  constructor arg = Ok this ->
  this = fresh (order this) /\ 1 <= order this <= 5.
Proof.
  unfold constructor, validateOrder.
  destruct arg as [| |b|x|s|]; try discriminate.
  - intros H. vm_compute in H. injection H as <-. vm_compute.
    split; [reflexivity|lia].
  - destruct (negb (Number.isInteger x)); [discriminate|]. cbn [orb].
    destruct (Number.to_Z x <? 1)%Z eqn:E1; [discriminate|].
    destruct (5 <? Number.to_Z x)%Z eqn:E5; [discriminate|].
    cbn [bind orb]. intros H. injection H as <-. cbn [order fresh].
    split; [reflexivity|].
    apply Z.ltb_ge in E1, E5. lia.
Qed.

Lemma reachable_positive this : reachable this -> counts_positive this.
Proof.
  induction 1 as [order this Hc | o this _ IH].
  - destruct (constructor_fresh _ _ Hc) as [E _]. rewrite E. constructor.
  - destruct o; simpl; auto. apply train_positive. exact IH.
Qed.

(** C8: in every reachable model every stored occurrence count is at least
    1, and every operation ([train] on any argument, [generate], [getStats])
    leaves a model with that property in which neither [totalTokens] nor any
    transition count has decreased. *)
Theorem counts_positive_and_growing (this : EnhancedLLM) :
  reachable this ->
  counts_positive this
  /\ forall o : operation,
      counts_positive (run o this)
      /\ (totalTokens this <= totalTokens (run o this))%Z
      /\ forall g x, (count this g x <= count (run o this) g x)%Z.
Proof.
  intros Hr. split; [exact (reachable_positive this Hr)|].
  intros o. split; [exact (reachable_positive _ (reach_run o this Hr))|].
  destruct o; simpl.
  - apply train_monotone.
  - split; [lia|]. intros; lia.
  - split; [lia|]. intros; lia.
Qed.

Lemma counts_positive_and_growing_witness :
  reachable (fresh 1)
  /\ counts_positive (fresh 1)
  /\ (totalTokens (fresh 1)
      <= totalTokens (run (op_train (JSString test_text)) (fresh 1)))%Z.
Proof.
  assert (H : reachable (fresh 1)).
  { apply (reach_new JSUndefined (fresh 1)). reflexivity. }
  split; [exact H|].
  destruct (counts_positive_and_growing (fresh 1) H) as [Hpos Hops].
  split; [exact Hpos|].
  exact (proj1 (proj2 (Hops (op_train (JSString test_text))))).
Defined.

(** ** The tokenizer *)

Lemma terminator_not_space c :
  Str.is_terminator c = true -> Str.is_space c = false.
Proof.
  unfold Str.is_terminator. intros H.
  apply orb_prop in H as [H|H]; [apply orb_prop in H as [H|H]|];
    apply Ascii.eqb_eq in H; subst c; reflexivity.
Qed.

Lemma split_spaces_leading s :
  Str.starts_with_space s = true -> fst (Str.split_spaces s) = "".
Proof.
  induction s as [|c s IH]; simpl; [discriminate|].
  intros Hc. rewrite Hc.
  destruct (Str.split_spaces s) as [tok rest] eqn:E.
  destruct (Str.starts_with_space s) eqn:Es; [|reflexivity].
  simpl. exact (IH eq_refl).
Qed.

Lemma terminator_free_shape tok : terminator_free tok = true -> token_shape tok = true.
Proof. unfold token_shape. intros ->. apply orb_true_r. Qed.

Lemma split_spaced_terminators skip s :
  terminator_free (fst (Str.split_spaces (Str.space_terminators_from skip s))) = true
  /\ Forall (fun tok => token_shape tok = true)
       (snd (Str.split_spaces (Str.space_terminators_from skip s))).
Proof.
  revert skip. induction s as [|c s IH]; intros skip.
  - simpl. split; [reflexivity|constructor].
  - cbn [Str.space_terminators_from].
    destruct (Str.is_terminator c) eqn:Hc.
    + specialize (IH true).
      set (R := Str.space_terminators_from true s) in *.
      pose proof (terminator_not_space c Hc) as Hs.
      pose proof (split_spaces_leading R) as Hlead.
      cbn [Str.split_spaces Str.starts_with_space].
      change (Str.is_space " ") with true. cbn iota. rewrite Hs.
      destruct (Str.split_spaces R) as [tokR restR] eqn:ER.
      simpl in IH. destruct IH as [IH1 IH2].
      destruct (Str.starts_with_space R) eqn:EsR; simpl.
      * pose proof (Hlead eq_refl) as E0. simpl in E0. subst tokR.
        split; [reflexivity|]. constructor; [reflexivity|exact IH2].
      * split; [reflexivity|]. constructor; [reflexivity|].
        constructor; [apply terminator_free_shape; exact IH1 | exact IH2].
    + destruct (skip && Str.is_space c) eqn:Hk.
      * apply IH.
      * specialize (IH false).
        set (R := Str.space_terminators_from false s) in *.
        cbn [Str.split_spaces].
        destruct (Str.split_spaces R) as [tokR restR] eqn:ER.
        simpl in IH. destruct IH as [IH1 IH2].
        destruct (Str.is_space c).
        -- destruct (Str.starts_with_space R); simpl.
           ++ split; assumption.
           ++ split; [reflexivity|].
              constructor; [apply terminator_free_shape; exact IH1 | exact IH2].
        -- simpl. split; [|exact IH2].
           unfold terminator_free in *. simpl. rewrite Hc, IH1. reflexivity.
Qed.

Lemma trimEnd_head s a t :
  Str.trimEnd s = String a t -> exists r, s = String a r.
Proof.
  destruct s as [|c s]; simpl; [discriminate|].
  destruct (Str.trimEnd s); [destruct (Str.is_space c)|];
    intros [= -> _]; eexists; reflexivity.
Qed.

Lemma split_spaces_trimEnd s :
  fst (Str.split_spaces (Str.trimEnd s)) = fst (Str.split_spaces s)
  /\ incl (snd (Str.split_spaces (Str.trimEnd s))) (snd (Str.split_spaces s)).
Proof.
  induction s as [|c s IH]; [simpl; split; [reflexivity|apply incl_refl]|].
  cbn [Str.trimEnd].
  destruct (Str.trimEnd s) as [|a t] eqn:Et.
  - cbn [Str.split_spaces] in *.
    destruct (Str.split_spaces s) as [tok rest] eqn:E. simpl in IH.
    destruct IH as [IH1 _]. subst tok.
    destruct (Str.is_space c) eqn:Hc.
    + simpl. destruct (Str.starts_with_space s); simpl;
        (split; [reflexivity|intros x []]).
    + simpl. rewrite Hc. simpl. split; [reflexivity|intros x []].
  - destruct (trimEnd_head s a t Et) as [r ->].
    assert (Es : Str.starts_with_space (String a t)
                 = Str.starts_with_space (String a r)) by reflexivity.
    remember (String a t) as u eqn:Eu.
    remember (String a r) as w eqn:Ew.
    cbn [Str.split_spaces]. rewrite Es.
    destruct (Str.split_spaces u) as [tokT restT].
    destruct (Str.split_spaces w) as [tokS restS].
    simpl in IH. destruct IH as [IH1 IH2]. subst tokT.
    destruct (Str.is_space c); [destruct (Str.starts_with_space w)|];
      simpl; split; auto.
    intros x [<-|Hx]; [now left | right; auto].
Qed.

Lemma split_ws_trimEnd s :
  incl (Str.split_ws (Str.trimEnd s)) (Str.split_ws s).
Proof.
  unfold Str.split_ws.
  destruct (split_spaces_trimEnd s) as [H1 H2].
  destruct (Str.split_spaces (Str.trimEnd s)) as [tokT restT].
  destruct (Str.split_spaces s) as [tokS restS].
  simpl in *. subst tokT.
  intros x [<-|Hx]; [now left | right; auto].
Qed.

Lemma split_ws_trimStart s :
  incl (Str.split_ws (Str.trimStart s)) (Str.split_ws s).
Proof.
  induction s as [|c s IH]; [apply incl_refl|].
  cbn [Str.trimStart].
  destruct (Str.is_space c) eqn:Hc; [|apply incl_refl].
  intros x Hx. apply IH in Hx.
  unfold Str.split_ws in *. cbn [Str.split_spaces]. rewrite Hc.
  destruct (Str.split_spaces s) as [tok rest].
  destruct (Str.starts_with_space s); [exact Hx | right; exact Hx].
Qed.

Lemma split_ws_trim s : incl (Str.split_ws (Str.trim s)) (Str.split_ws s).
Proof.
  unfold Str.trim. intros x Hx.
  apply split_ws_trimStart, split_ws_trimEnd. exact Hx.
Qed.

Lemma tokenize_shape text :
  Forall (fun tok => token_shape tok = true) (tokenize text).
Proof.
  apply Forall_forall. intros tok Hin.
  unfold tokenize in Hin. apply split_ws_trim in Hin.
  unfold Str.split_ws, Str.space_terminators in Hin.
  destruct (split_spaced_terminators false (Str.collapse_spaces text)) as [H1 H2].
  destruct (Str.split_spaces _) as [t rest]. simpl in *.
  destruct Hin as [<-|Hin].
  - apply terminator_free_shape. exact H1.
  - rewrite Forall_forall in H2. auto.
Qed.

(** C6 as stated fails on its own example: the last token of
    "This is a test." is ".", and "test." is not among the tokens. *)
Lemma test_text_last_token :
  last (tokenize test_text) "" = "."
  /\ last (tokenize test_text) "" <> "test."
  /\ ~ In "test." (tokenize test_text).
Proof.
  split; [reflexivity|]. split; [discriminate|].
  vm_compute. intros H.
  repeat (destruct H as [H|H]; [discriminate H|]). exact H.
Qed.

(** ** The sampler *)

Section SamplerFacts.
Variable approx : num -> num -> num.

Lemma walk_In entries temperature rand cumulative token :
  walk approx entries temperature rand cumulative = Some token ->
  In token (Map_keys entries).
Proof.
  revert cumulative. induction entries as [|[tok prob] entries IH];
    intros cumulative; simpl; [discriminate|].
  destruct (Number.leb rand _).
  - intros [= <-]. now left.
  - intros H. right. exact (IH _ H).
Qed.

Lemma last_entry_in_bounds (entries : Map Z) :
  entries <> [] ->
  exists e, nth_error entries (List.length entries - 1) = Some e
            /\ In (fst e) (Map_keys entries).
Proof.
  intros Hne.
  destruct (nth_error_in_range entries (List.length entries - 1)) as [e He].
  { destruct entries; [congruence|simpl; lia]. }
  exists e. split; [exact He|].
  apply nth_error_In in He. unfold Map_keys. apply in_map. exact He.
Qed.

Lemma selectNextToken_ok transitions temperature random01 :
  transitions <> [] ->
  exists token,
    selectNextToken approx transitions temperature random01 = Ok token
    /\ In token (Map_keys transitions).
Proof.
  intros Hne. unfold selectNextToken.
  destruct (walk approx transitions temperature _ Number.zero) as [token|] eqn:Hw.
  - exists token. split; [reflexivity|]. exact (walk_In _ _ _ _ _ Hw).
  - destruct (last_entry_in_bounds transitions Hne) as ([token prob] & He & Hin).
    rewrite He. exists token. split; [reflexivity|exact Hin].
Qed.

Lemma mul_zero_finite (total : num) :
  Number.isFinite total = true ->
  exists s, Number.mul Number.zero total = S754_zero s.
Proof.
  destruct total as [s|s| |s m e]; try discriminate; intros _;
    eexists; reflexivity.
Qed.

Lemma leb_zero_add_zero (s : bool) (w : num) :
  Number.leb Number.zero w = true ->
  Number.leb (S754_zero s) (Number.add Number.zero w) = true.
Proof.
  destruct w as [s'|s'| |s' m e]; try discriminate.
  - intros _. destruct s'; reflexivity.
  - destruct s'; [discriminate|]. intros _. reflexivity.
  - destruct s'; [discriminate|]. intros _. reflexivity.
Qed.

Lemma zero_draw_first token prob rest temperature :
  Number.isFinite (total_weight approx ((token, prob) :: rest) temperature) = true ->
  Number.leb Number.zero (weight approx temperature prob) = true ->
  selectNextToken approx ((token, prob) :: rest) temperature Number.zero
  = Ok token.
Proof.
  intros Hfin Hw. unfold selectNextToken.
  destruct (mul_zero_finite _ Hfin) as [s ->].
  cbn [walk]. rewrite (leb_zero_add_zero s _ Hw). reflexivity.
Qed.

End SamplerFacts.

(** C9: on a map with at least one entry, for every temperature and every
    draw, [selectNextToken] returns a token that is a key of the map; the
    entry that the fallback reads, the last one, exists. *)
Theorem selectNextToken_returns_a_key (approx : num -> num -> num)
  (transitions : Map Z) (temperature random01 : num) :
  transitions <> [] ->
  (exists token,
      selectNextToken approx transitions temperature random01 = Ok token
      /\ In token (Map_keys transitions))
  /\ (forall e, selectNextToken approx transitions temperature random01 <> Throw e)
  /\ exists entry,
      nth_error transitions (List.length transitions - 1) = Some entry.
Proof.
  intros Hne.
  destruct (selectNextToken_ok approx transitions temperature random01 Hne)
    as (token & Hs & Hin).
  split; [exists token; auto|]. split.
  - intros e. rewrite Hs. discriminate.
  - destruct (last_entry_in_bounds transitions Hne) as (entry & He & _).
    exists entry. exact He.
Qed.

Lemma selectNextToken_returns_a_key_witness :
  [("a", 1%Z); ("b", 1%Z)] <> []
  /\ exists token,
      selectNextToken pow_1 [("a", 1%Z); ("b", 1%Z)] MIN_VALUE Number.zero
      = Ok token
      /\ In token (Map_keys [("a", 1%Z); ("b", 1%Z)]).
Proof.
  assert (H : [("a", 1%Z); ("b", 1%Z)] <> []) by discriminate.
  split; [exact H|].
  exact (proj1 (selectNextToken_returns_a_key pow_1 [("a", 1%Z); ("b", 1%Z)]
                  MIN_VALUE Number.zero H)).
Defined.

(** C4, as the code has it: when [Math.random] always returns 0, the
    sampler returns the first entry's token whenever the total weight is
    finite and the first weight is not below zero, which is what
    [Math.pow] gives unless it overflows to Infinity or yields NaN. *)
Theorem zero_draw_selects_first (approx : num -> num -> num)
  (random : nat -> num) (token : string) (prob : Z) (rest : Map Z)
  (temperature : num) (k : nat) :
  (forall n, random n = Number.zero) ->
  Number.isFinite (total_weight approx ((token, prob) :: rest) temperature) = true ->
  Number.leb Number.zero (weight approx temperature prob) = true ->
  selectNextToken approx ((token, prob) :: rest) temperature (random k)
  = Ok token.
Proof.
  intros Hzero Hfin Hw. rewrite Hzero. apply zero_draw_first; assumption.
Qed.

Lemma zero_draw_selects_first_witness :
  (forall n : nat, (fun _ : nat => Number.zero) n = Number.zero)
  /\ Number.isFinite
       (total_weight pow_1 [("a", 2%Z); ("b", 1%Z)] Number.one) = true
  /\ Number.leb Number.zero (weight pow_1 Number.one 2) = true
  /\ selectNextToken pow_1 [("a", 2%Z); ("b", 1%Z)] Number.one Number.zero
     = Ok "a".
Proof.
  assert (H0 : forall n : nat, (fun _ : nat => Number.zero) n = Number.zero)
    by reflexivity.
  assert (H1 : Number.isFinite
                 (total_weight pow_1 [("a", 2%Z); ("b", 1%Z)] Number.one) = true)
    by (vm_compute; reflexivity).
  assert (H2 : Number.leb Number.zero (weight pow_1 Number.one 2) = true)
    by (vm_compute; reflexivity).
  split; [exact H0|]. split; [exact H1|]. split; [exact H2|].
  exact (zero_draw_selects_first pow_1 (fun _ => Number.zero)
           "a" 2%Z [("b", 1%Z)] Number.one 0 H0 H1 H2).
Defined.

(** C4 as stated fails, whatever [Math.pow] computes where the standard
    leaves it free: at temperature 5e-324, which is above 0, the exponent
    [1 / temperature] is Infinity, the weight of a count of 1 is NaN, no
    comparison succeeds and the fallback returns the last token. *)
Lemma zero_draw_overflow_selects_last :
  ~ exists approx : num -> num -> num,
      forall (transitions : Map Z) (temperature : num),
        transitions <> [] ->
        Number.ltb Number.zero temperature = true ->
        selectNextToken approx transitions temperature Number.zero
        = Ok (hd "" (Map_keys transitions)).
Proof.
  intros [approx H].
  specialize (H [("a", 1%Z); ("b", 1%Z)] MIN_VALUE).
  assert (E : selectNextToken approx [("a", 1%Z); ("b", 1%Z)] MIN_VALUE Number.zero
              = Ok "b") by (vm_compute; reflexivity).
  rewrite E in H.
  assert (Hb : Ok "b" = Ok "a" :> result string).
  { apply H; [discriminate | reflexivity]. }
  discriminate Hb.
Qed.

(** ** Splitting a joined n-gram *)

Lemma space_free_no_blank tok : space_free tok = true -> no_blank tok = true.
Proof.
  unfold space_free, no_blank. induction tok as [|c tok IH]; simpl; [reflexivity|].
  intros H. apply andb_prop in H as [Hc Ht]. rewrite (IH Ht), andb_true_r.
  destruct (c =? " ")%char eqn:E; [|reflexivity].
  apply Ascii.eqb_eq in E. subst c. discriminate Hc.
Qed.

Lemma split_at_no_blank tok :
  no_blank tok = true -> Str.split_at " " tok = (tok, []).
Proof.
  unfold no_blank. induction tok as [|c tok IH]; simpl; [reflexivity|].
  intros H. apply andb_prop in H as [Hc Ht]. rewrite (IH Ht).
  destruct (c =? " ")%char; [discriminate|reflexivity].
Qed.

Lemma split_at_append tok s :
  no_blank tok = true ->
  Str.split_at " " (tok ++ " " ++ s) = (tok, Str.split " " s).
Proof.
  change (" " ++ s) with (String " " s).
  unfold no_blank, Str.split. induction tok as [|c tok IH]; simpl.
  - intros _. destruct (Str.split_at " " s). reflexivity.
  - intros H. apply andb_prop in H as [Hc Ht]. rewrite (IH Ht).
    destruct (c =? " ")%char; [discriminate|reflexivity].
Qed.

Lemma split_join toks :
  toks <> [] ->
  Forall (fun tok => no_blank tok = true) toks ->
  Str.split " " (Str.join " " toks) = toks.
Proof.
  induction toks as [|tok toks IH]; [congruence|].
  intros _ H. inversion H as [|? ? Htok Htoks]; subst.
  destruct toks as [|tok' toks].
  - simpl. unfold Str.split. rewrite (split_at_no_blank tok Htok). reflexivity.
  - unfold Str.join in *.
    change (String.concat " " (tok :: tok' :: toks))
      with (tok ++ " " ++ String.concat " " (tok' :: toks)).
    unfold Str.split at 1. rewrite (split_at_append _ _ Htok).
    rewrite IH; [reflexivity|discriminate|exact Htoks].
Qed.

Lemma split_spaces_space_free s :
  space_free (fst (Str.split_spaces s)) = true
  /\ Forall (fun tok => space_free tok = true) (snd (Str.split_spaces s)).
Proof.
  induction s as [|c s IH]; [simpl; split; [reflexivity|constructor]|].
  cbn [Str.split_spaces].
  destruct (Str.split_spaces s) as [tok rest]. simpl in IH.
  destruct IH as [IH1 IH2].
  destruct (Str.is_space c) eqn:Hc; [destruct (Str.starts_with_space s)|]; simpl.
  - split; assumption.
  - split; [reflexivity|]. constructor; assumption.
  - split; [|exact IH2]. unfold space_free in *. simpl. rewrite Hc, IH1. reflexivity.
Qed.

Lemma split_ws_space_free s :
  Forall (fun tok => space_free tok = true) (Str.split_ws s).
Proof.
  unfold Str.split_ws. destruct (split_spaces_space_free s) as [H1 H2].
  destruct (Str.split_spaces s). constructor; assumption.
Qed.

Lemma preprocessText_space_free this text tokens :
  preprocessText this text = Ok tokens ->
  Forall (fun tok => space_free tok = true) tokens.
Proof.
  unfold preprocessText. destruct text; try discriminate.
  destruct (Str.is_empty _); [discriminate|].
  destruct (_ <? _)%nat; [discriminate|].
  intros [= <-]. apply split_ws_space_free.
Qed.

Lemma slice_length {A : Type} (a : list A) (start n : nat) :
  start + n <= List.length a -> List.length (slice a start n) = n.
Proof.
  intros H. unfold slice. rewrite length_firstn, length_skipn. lia.
Qed.

Lemma In_firstn {A : Type} (x : A) (n : nat) (l : list A) :
  In x (firstn n l) -> In x l.
Proof.
  intros H. rewrite <- (firstn_skipn n l). apply in_or_app. now left.
Qed.

Lemma In_skipn {A : Type} (x : A) (n : nat) (l : list A) :
  In x (skipn n l) -> In x l.
Proof.
  intros H. rewrite <- (firstn_skipn n l). apply in_or_app. now right.
Qed.

Lemma slice_Forall {A : Type} (P : A -> Prop) (a : list A) (start n : nat) :
  Forall P a -> Forall P (slice a start n).
Proof.
  intros H. unfold slice. apply Forall_forall. intros x Hx.
  apply In_firstn, In_skipn in Hx. rewrite Forall_forall in H. auto.
Qed.

Lemma getNGram_ok this tokens i :
  1 <= order this ->
  i + order this <= List.length tokens ->
  Forall (fun tok => space_free tok = true) tokens ->
  gram_ok (order this) (getNGram this tokens i).
Proof.
  intros Ho Hlen Hsf. unfold gram_ok, getNGram.
  pose proof (slice_length tokens i (order this) Hlen) as Hl.
  rewrite split_join.
  - exact Hl.
  - intros E. rewrite E in Hl. simpl in Hl. lia.
  - apply slice_Forall. revert Hsf. apply Forall_impl.
    intros tok. apply space_free_no_blank.
Qed.

(** ** Well-formed models *)

Lemma Set_add_not_nil s x : Set_add s x <> [].
Proof.
  unfold Set_add. destruct (Set_has s x) eqn:E.
  - destruct s; [discriminate E|discriminate].
  - destruct s; discriminate.
Qed.

Lemma Set_add_Forall (P : string -> Prop) s x :
  Forall P s -> P x -> Forall P (Set_add s x).
Proof.
  intros Hs Hx. unfold Set_add. destruct (Set_has s x); [exact Hs|].
  apply Forall_app. split; [exact Hs|]. constructor; [exact Hx|constructor].
Qed.

Lemma train_well_formed this text :
  well_formed this -> well_formed (fst (train this text)).
Proof.
  intros Hwf.
  apply train_invariant
    with (Q := fun m => well_formed m /\ startSequences m <> []).
  - intros tokens Hp [Ho Hk Hi Hs Ht].
    pose proof (preprocessText_length _ _ _ Hp) as Hlen.
    pose proof (preprocessText_space_free _ _ _ Hp) as Hsf.
    split; [|apply Set_add_not_nil].
    constructor; simpl; auto.
    + apply Set_add_Forall; [exact Hs|].
      apply getNGram_ok; [lia|lia|exact Hsf].
    + intros _. apply Set_add_not_nil.
  - intros tokens i m x Hp [[Ho Hk Hi Hs Ht] Hne] Hom Hlen Hx.
    pose proof (preprocessText_space_free _ _ _ Hp) as Hsf.
    split; [|exact Hne].
    constructor; simpl; auto.
    + apply Map_keys_set; [exact Hk|].
      apply getNGram_ok; [lia|lia|exact Hsf].
    + apply (Map_set_Forall (fun t : Map Z => t <> [])); [exact Hi|].
      apply Map_set_not_nil.
  - intros m [H _]. exact H.
  - exact Hwf.
Qed.

Lemma reachable_well_formed this : reachable this -> well_formed this.
Proof.
  induction 1 as [arg this Hc | o this _ IH].
  - destruct (constructor_fresh _ _ Hc) as [E Ho]. rewrite E.
    constructor; simpl; auto; constructor.
  - destruct o; simpl; auto. apply train_well_formed. exact IH.
Qed.

(** ** The generation loop *)

Section GenerationFacts.
Variable approx : num -> num -> num.
Variable random : nat -> num.

(** With enough fuel for the tokens that [maxLength] still admits, the loop
    ends, does not throw, and returns the tokens it started from followed
    by the ones it drew, no more than [maxLength] in all unless it started
    with more. *)
Lemma generate_loop_extends this minLength maxLength temperature endOnSentence :
  Forall (fun kv : string * Map Z => snd kv <> []) (wordTransitions this) ->
  forall fuel k currentGram generatedTokens,
    Z.to_nat (maxLength - Z.of_nat (List.length generatedTokens)) < fuel ->
    exists more,
      generate_loop approx random fuel this minLength maxLength temperature
        endOnSentence k currentGram generatedTokens
      = Some (Ok (generatedTokens ++ more)%list)
      /\ (Z.of_nat (List.length (generatedTokens ++ more)%list)
          <= Z.max (Z.of_nat (List.length generatedTokens)) maxLength)%Z.
Proof.
  intros Hinner.
  induction fuel as [|fuel IH]; intros k currentGram generatedTokens Hfuel;
    [lia|].
  cbn [generate_loop].
  destruct (Z.of_nat (List.length generatedTokens) <? maxLength)%Z eqn:Hlt.
  - apply Z.ltb_lt in Hlt.
    destruct (Map_get (wordTransitions this) currentGram) as [transitions|] eqn:Hg.
    + pose proof (Map_get_Forall (fun t : Map Z => t <> []) _ _ _ Hinner Hg) as Hne.
      cbv beta in Hne.
      destruct (selectNextToken_ok approx transitions temperature (random k) Hne)
        as (nextToken & Hsel & _).
      rewrite Hsel.
      assert (Hlen : List.length (generatedTokens ++ [nextToken])%list
                     = S (List.length generatedTokens)).
      { rewrite length_app. simpl. lia. }
      destruct (endOnSentence && Str.ends_with_terminator nextToken
                && (minLength <=? _)%Z).
      * exists [nextToken]. split; [reflexivity|]. rewrite Hlen. clear Hlen. lia.
      * destruct (IH (S k)
                    (Str.join " "
                       (slice_last (generatedTokens ++ [nextToken])%list (order this)))
                    (generatedTokens ++ [nextToken])%list)
          as (more & Hrun & Hbound).
        { rewrite Hlen. clear Hlen. lia. }
        exists (nextToken :: more). rewrite Hrun. rewrite Hlen in Hbound.
        clear Hlen.
        replace ((generatedTokens ++ [nextToken]) ++ more)%list
          with (generatedTokens ++ nextToken :: more)%list in *
          by (rewrite <- app_assoc; reflexivity).
        split; [reflexivity|lia].
    + exists []. rewrite app_nil_r. split; [reflexivity|lia].
  - exists []. rewrite app_nil_r. split; [reflexivity|lia].
Qed.

Lemma choose_start_ok this startPhrase currentGram k :
  well_formed this ->
  choose_start random this startPhrase = Ok (currentGram, k) ->
  gram_ok (order this) currentGram.
Proof.
  intros [Ho Hk Hi Hs Ht]. unfold choose_start.
  destruct (default startPhrase JSNull) as [| |b|x|s|]; try discriminate.
  - unfold pick_start.
    destruct (Number.floor _) as [i|]; [|discriminate].
    destruct (i <? 0)%Z; [discriminate|].
    destruct (nth_error (startSequences this) (Z.to_nat i)) as [g|] eqn:E;
      [|discriminate].
    intros [= <- _]. apply nth_error_In in E.
    rewrite Forall_forall in Hs. auto.
  - unfold Map_has.
    destruct (Map_get (wordTransitions this) (Str.toLowerCase s)) as [t|] eqn:E;
      [|discriminate].
    simpl. intros [= <- _]. apply Map_get_In in E.
    rewrite Forall_forall in Hk. apply Hk.
    unfold Map_keys. change (Str.toLowerCase s) with (fst (Str.toLowerCase s, t)).
    apply in_map. exact E.
Qed.

Lemma generateTokens_bounds this startPhrase options currentGram k :
  well_formed this ->
  wordTransitions this <> [] ->
  validateOptions options = Ok tt ->
  choose_start random this startPhrase = Ok (currentGram, k) ->
  exists more,
    generateTokens approx random this startPhrase options
    = Some (Ok (Str.split " " currentGram ++ more)%list)
    /\ List.length (Str.split " " currentGram) = order this
    /\ (Z.of_nat (List.length (Str.split " " currentGram ++ more)%list)
        <= Z.max (Z.of_nat (order this)) (int_of (opt_maxLength options)))%Z.
Proof.
  intros Hwf Hne Hval Hstart.
  pose proof (choose_start_ok _ _ _ _ Hwf Hstart) as Hgram.
  unfold gram_ok in Hgram.
  unfold generateTokens.
  destruct (Map_size (wordTransitions this) =? 0)%nat eqn:Hsz.
  { apply Nat.eqb_eq in Hsz. unfold Map_size in Hsz.
    destruct (wordTransitions this); [congruence|discriminate]. }
  rewrite Hval, Hstart.
  destruct (generate_loop_extends this
              (int_of (opt_minLength options)) (int_of (opt_maxLength options))
              (num_of (opt_temperature options))
              (bool_of (opt_endOnSentence options))
              (wf_inner _ Hwf)
              (S (Z.to_nat (int_of (opt_maxLength options)
                            - Z.of_nat (List.length (Str.split " " currentGram)))))
              k currentGram (Str.split " " currentGram))
    as (more & Hrun & Hbound); [lia|].
  exists more. rewrite Hrun. rewrite Hgram in Hbound. auto.
Qed.

End GenerationFacts.

(** C1, as the code has it: on a reachable model with at least one
    transition key, with options that pass [validateOptions] and a start
    that is accepted (the lower-cased start phrase is a key, or the first
    draw indexes [startSequences]), [generate] returns; its tokens are the
    [order] tokens of the seed n-gram followed by the sampled ones, at
    least [order] and at most [max order maxLength] of them. *)
Theorem generate_length_bounds (approx : num -> num -> num)
  (random : nat -> num) (this : EnhancedLLM) (startPhrase : value)
  (options : GenerationOptions) (currentGram : string) (k : nat) :
  reachable this ->
  wordTransitions this <> [] ->
  validateOptions options = Ok tt ->
  choose_start random this startPhrase = Ok (currentGram, k) ->
  exists generatedTokens,
    generateTokens approx random this startPhrase options
    = Some (Ok generatedTokens)
    /\ generate approx random this startPhrase options
       = Some (Ok (Str.join " " generatedTokens))
    /\ firstn (order this) generatedTokens = Str.split " " currentGram
    /\ order this <= List.length generatedTokens
    /\ (Z.of_nat (List.length generatedTokens)
        <= Z.max (Z.of_nat (order this)) (int_of (opt_maxLength options)))%Z.
Proof.
  intros Hr Hne Hval Hstart.
  destruct (generateTokens_bounds approx random this startPhrase options
              currentGram k (reachable_well_formed this Hr) Hne Hval Hstart)
    as (more & Hrun & Hseed & Hbound).
  exists (Str.split " " currentGram ++ more)%list.
  split; [exact Hrun|]. split; [unfold generate; rewrite Hrun; reflexivity|].
  split; [|split; [|exact Hbound]].
  - rewrite <- Hseed. rewrite firstn_app, Nat.sub_diag, firstn_all.
    simpl. apply app_nil_r.
  - rewrite length_app. lia.
Qed.

Lemma generate_length_bounds_witness :
  reachable abc_model
  /\ wordTransitions abc_model <> []
  /\ validateOptions one_token_options = Ok tt
  /\ choose_start zero_source abc_model JSNull = Ok ("a b", 1)
  /\ exists generatedTokens,
      generateTokens pow_1 zero_source abc_model JSNull one_token_options
      = Some (Ok generatedTokens)
      /\ generate pow_1 zero_source abc_model JSNull one_token_options
         = Some (Ok (Str.join " " generatedTokens))
      /\ firstn (order abc_model) generatedTokens = Str.split " " "a b"
      /\ order abc_model <= List.length generatedTokens
      /\ (Z.of_nat (List.length generatedTokens)
          <= Z.max (Z.of_nat (order abc_model))
               (int_of (opt_maxLength one_token_options)))%Z.
Proof.
  assert (H1 : reachable abc_model).
  { unfold abc_model. apply reach_run. apply (reach_new (JSInt 2) (fresh 2)).
    vm_compute. reflexivity. }
  assert (H2 : wordTransitions abc_model <> []) by (vm_compute; discriminate).
  assert (H3 : validateOptions one_token_options = Ok tt)
    by (vm_compute; reflexivity).
  assert (H4 : choose_start zero_source abc_model JSNull = Ok ("a b", 1))
    by (vm_compute; reflexivity).
  split; [exact H1|]. split; [exact H2|]. split; [exact H3|]. split; [exact H4|].
  exact (generate_length_bounds pow_1 zero_source abc_model JSNull
           one_token_options "a b" 1 H1 H2 H3 H4).
Defined.

(** C1 as stated fails: with order 2 and [maxLength] 1, which
    [validateOptions] accepts, [generate] returns the two tokens of the seed
    n-gram, one more than [maxLength]. *)
Lemma seed_exceeds_maxLength :
  constructor (JSInt 2) = Ok (fresh 2)
  /\ train (fresh 2) (JSString "a b c") = (abc_model, Ok tt)
  /\ validateOptions one_token_options = Ok tt
  /\ int_of (opt_maxLength one_token_options) = 1%Z
  /\ generateTokens pow_1 zero_source abc_model JSNull one_token_options
     = Some (Ok ["a"; "b"])
  /\ generate pow_1 zero_source abc_model (JSString "a b") one_token_options
     = Some (Ok "a b")
  /\ ~ (Z.of_nat (List.length ["a"; "b"])
        <= int_of (opt_maxLength one_token_options))%Z.
Proof.
  split; [vm_compute; reflexivity|].
  split; [vm_compute; reflexivity|].
  split; [vm_compute; reflexivity|].
  split; [vm_compute; reflexivity|].
  split; [vm_compute; reflexivity|].
  split; [vm_compute; reflexivity|].
  vm_compute. intros H. apply H. reflexivity.
Qed.

(** ** The start phrase *)

(** C5, what the code does: after training a new order-1 model on
    "This is a test.", the key "This" is in the table, and [generate] with
    the start phrase "This" looks up "this" and throws "Start phrase not
    found in training data", whatever the draws. *)
Theorem start_phrase_This_not_found (approx : num -> num -> num)
  (random : nat -> num) :
  constructor (JSInt 1) = Ok (fresh 1)
  /\ train (fresh 1) (JSString test_text) = (test_model, Ok tt)
  /\ Map_keys (wordTransitions test_model) = ["This"; "is"; "a"; "test"]
  /\ validateOptions round_trip_options = Ok tt
  /\ Str.toLowerCase "This" = "this"
  /\ generate approx random test_model (JSString "This") round_trip_options
     = Some (Throw (ValidationError "Start phrase not found in training data")).
Proof.
  split; [vm_compute; reflexivity|].
  split; [vm_compute; reflexivity|].
  split; [vm_compute; reflexivity|].
  split; [vm_compute; reflexivity|].
  split; vm_compute; reflexivity.
Qed.

(** * Further properties *)

(** ** Construction *)

(** X1: [new EnhancedLLM(arg)] either returns an empty model whose order is
    between 1 and 5, for which [getStats] reports zero everywhere, or throws
    the ValidationError about the order; every integer from 1 to 5 is
    accepted and becomes the order; 0, 6, a fraction, NaN, Infinity, null,
    a string, a boolean and an object are refused. *)
Theorem constructor_outcomes :
  (forall arg,
      match constructor arg with
      | Ok this =>
          this = fresh (order this) /\ 1 <= order this <= 5
          /\ getStats this = stats_zero
      | Throw e =>
          e = ValidationError "Order must be an integer between 1 and 5"
      end)
  /\ (forall z, (1 <= z <= 5)%Z ->
                constructor (JSInt z) = Ok (fresh (Z.to_nat z)))
  /\ (forall arg,
        In arg [JSInt 0; JSInt 6; JSInt (-1);
                JSNumber (Number.div Number.one (Number.of_Z 2));
                JSNumber Number.NaN; JSNumber Number.Infinity;
                JSNull; JSString "2"; JSBoolean true; JSObject] ->
        constructor arg
        = Throw (ValidationError "Order must be an integer between 1 and 5")).
Proof.
  split; [|split].
  - intros arg. destruct (constructor arg) as [this|e] eqn:E.
    + destruct (constructor_fresh arg this E) as [Hf Ho].
      split; [exact Hf|]. split; [exact Ho|]. rewrite Hf. reflexivity.
    + unfold constructor, validateOrder in E.
      destruct arg as [| |b|x|s|]; try (injection E as <-; reflexivity).
      * vm_compute in E. discriminate E.
      * destruct (negb (Number.isInteger x) || (Number.to_Z x <? 1)%Z
                  || (5 <? Number.to_Z x)%Z);
          [injection E as <-; reflexivity | discriminate E].
  - intros z Hz.
    assert (z = 1 \/ z = 2 \/ z = 3 \/ z = 4 \/ z = 5)%Z
      as [->|[->|[->|[->| ->]]]] by lia; vm_compute; reflexivity.
  - intros arg Hin. simpl in Hin.
    repeat (destruct Hin as [<-|Hin]; [vm_compute; reflexivity|]).
    destruct Hin.
Qed.

Lemma constructor_outcomes_witness :
  (1 <= 3 <= 5)%Z /\ constructor (JSInt 3) = Ok (fresh (Z.to_nat 3)).
Proof.
  assert (H : (1 <= 3 <= 5)%Z) by lia.
  split; [exact H|].
  exact (proj1 (proj2 constructor_outcomes) 3%Z H).
Defined.

(** ** What [train] returns *)

Lemma train_loop_populates tokens :
  forall n i this,
    1 <= n -> i + n + order this <= List.length tokens ->
    exists this',
      train_loop tokens n i this = (this', Ok tt)
      /\ wordTransitions this' <> [].
Proof.
  intros [|n] i this Hn Hlen; [lia|]. cbn [train_loop].
  destruct (nth_error_in_range tokens (i + order this)) as [x Hx]; [lia|].
  rewrite (train_step_ok _ _ _ _ Hx).
  destruct (train_loop_ind (fun m => wordTransitions m <> []) tokens (order this))
    with (n := n) (i := S i)
         (this := record_transition this (getNGram this tokens i) x)
    as (this' & Hrun & _ & Hne).
  - intros j m y _ _ _. simpl. apply Map_set_not_nil.
  - reflexivity.
  - lia.
  - simpl. apply Map_set_not_nil.
  - exists this'. auto.
Qed.

(** X2: for every model and every argument, [train] ends in one of two
    ways.  It throws a ValidationError and leaves the model as it was; or it
    returns, the order is unchanged, [totalTokens] has grown by the number
    of tokens, and the table has at least one key.  The reads
    [tokens[i + order]] and [wordTransitions.get(currentGram)] never yield
    [undefined]: no TypeError. *)
Theorem train_outcomes (this : EnhancedLLM) (text : value) :
  (exists message,
      preprocessText this text = Throw (ValidationError message)
      /\ train this text = (this, Throw (ValidationError message)))
  \/ (exists tokens this',
        preprocessText this text = Ok tokens
        /\ train this text = (this', Ok tt)
        /\ order this' = order this
        /\ totalTokens this'
           = (totalTokens this + Z.of_nat (List.length tokens))%Z
        /\ wordTransitions this' <> []).
Proof.
  destruct (preprocessText this text) as [tokens|e] eqn:Hp.
  - right. exists tokens.
    destruct (train_ok this text tokens Hp) as (this' & Hrun & Ho & Ht & _).
    exists this'. repeat split; auto.
    pose proof (preprocessText_length _ _ _ Hp) as Hlen.
    rewrite (train_unfold _ _ _ Hp) in Hrun.
    destruct (train_loop_populates tokens (List.length tokens - order this) 0
                (train_header this tokens)) as (m & Hm & Hne);
      [lia | simpl; lia |].
    rewrite Hm in Hrun. injection Hrun as <-. exact Hne.
  - left. assert (exists message, e = ValidationError message) as [message ->].
    { unfold preprocessText in Hp.
      destruct text; try (injection Hp as <-; eexists; reflexivity).
      destruct (Str.is_empty _); [injection Hp as <-; eexists; reflexivity|].
      destruct (_ <? _)%nat; [injection Hp as <-; eexists; reflexivity|].
      discriminate Hp. }
    exists message. split; [reflexivity|]. apply train_failed. exact Hp.
Qed.

(** ** Statistics *)

Section TotalFacts.
Context {V : Type}.
Variable w : V -> Z.

Lemma fold_left_shift (l : list V) (a : Z) :
  fold_left (fun sum v => (sum + w v)%Z) l a
  = (a + fold_left (fun sum v => (sum + w v)%Z) l 0)%Z.
Proof.
  revert a. induction l as [|v l IH]; intros a; simpl; [lia|].
  rewrite (IH (a + w v)%Z), (IH (w v)). lia.
Qed.

Lemma total_cons (k : string) (v : V) (m : Map V) :
  total w ((k, v) :: m) = (w v + total w m)%Z.
Proof. unfold total. simpl. apply fold_left_shift. Qed.

Lemma total_set (m : Map V) (k : string) (v : V) :
  total w (Map_set m k v)
  = (total w m
     - match Map_get m k with Some v0 => w v0 | None => 0 end
     + w v)%Z.
Proof.
  induction m as [|[k0 v0] m IH]; simpl.
  - rewrite total_cons. unfold total. simpl. lia.
  - destruct (k0 =? k)%string; rewrite !total_cons; [lia|].
    rewrite IH. lia.
Qed.

Lemma total_at_least (m : Map V) :
  Forall (fun kv => (1 <= w (snd kv))%Z) m ->
  (Z.of_nat (Map_size m) <= total w m)%Z.
Proof.
  induction 1 as [|[k v] m Hv _ IH].
  - unfold total. simpl. lia.
  - rewrite total_cons. unfold Map_size in *. simpl List.length. simpl in Hv. lia.
Qed.

End TotalFacts.

Lemma totalTransitions_total this :
  totalTransitions (getStats this)
  = total (total (fun c : Z => c)) (wordTransitions this).
Proof. reflexivity. Qed.

Lemma record_transition_total this gram x :
  totalTransitions (getStats (record_transition this gram x))
  = (totalTransitions (getStats this) + 1)%Z.
Proof.
  rewrite !totalTransitions_total. simpl. rewrite total_set.
  rewrite total_set, count_or_0_eq. unfold transitions_of.
  destruct (Map_get (wordTransitions this) gram) as [t|].
  - generalize (total (fun c : Z => c) t).
    generalize (total (total (fun c : Z => c)) (wordTransitions this)).
    intros T a. destruct (Map_get t x); lia.
  - change (total (fun c : Z => c) []) with 0%Z. cbn [Map_get].
    generalize (total (total (fun c : Z => c)) (wordTransitions this)).
    intros T. lia.
Qed.

Lemma train_loop_total tokens :
  forall n i this,
    i + n + order this <= List.length tokens ->
    exists this',
      train_loop tokens n i this = (this', Ok tt)
      /\ totalTransitions (getStats this')
         = (totalTransitions (getStats this) + Z.of_nat n)%Z.
Proof.
  induction n as [|n IH]; intros i this Hlen.
  - exists this. split; [reflexivity|lia].
  - cbn [train_loop].
    destruct (nth_error_in_range tokens (i + order this)) as [x Hx]; [lia|].
    rewrite (train_step_ok _ _ _ _ Hx).
    destruct (IH (S i) (record_transition this (getNGram this tokens i) x))
      as (this' & Hrun & Ht); [simpl; lia|].
    exists this'. split; [exact Hrun|].
    rewrite Ht, record_transition_total. lia.
Qed.

Lemma train_total this text tokens :
  preprocessText this text = Ok tokens ->
  totalTransitions (getStats (fst (train this text)))
  = (totalTransitions (getStats this)
     + Z.of_nat (List.length tokens) - Z.of_nat (order this))%Z.
Proof.
  intros Hp. pose proof (preprocessText_length _ _ _ Hp) as Hlen.
  rewrite (train_unfold _ _ _ Hp).
  destruct (train_loop_total tokens (List.length tokens - order this) 0
              (train_header this tokens)) as (this' & Hrun & Ht);
    [simpl; lia|].
  rewrite Hrun. cbn [fst]. rewrite Ht.
  change (totalTransitions (getStats (train_header this tokens)))
    with (totalTransitions (getStats this)).
  lia.
Qed.

(** X3: a [train] call that accepts its text, of [n] tokens, raises what
    [getStats] reports as [totalTransitions] by [n - order] and as
    [totalTokens] by [n]: one transition for every token but the first
    [order]. *)
Theorem train_raises_statistics (this : EnhancedLLM) (text : value)
  (tokens : list string) :
  preprocessText this text = Ok tokens ->
  let after := getStats (fst (train this text)) in
  totalTransitions after
  = (totalTransitions (getStats this)
     + Z.of_nat (List.length tokens) - Z.of_nat (order this))%Z
  /\ stats_totalTokens after
     = (stats_totalTokens (getStats this) + Z.of_nat (List.length tokens))%Z
  /\ (totalTransitions (getStats this) < totalTransitions after)%Z
  /\ 1 <= vocabularySize after.
Proof.
  intros Hp. cbv zeta.
  pose proof (preprocessText_length _ _ _ Hp) as Hlen.
  pose proof (train_total this text tokens Hp) as Ht.
  destruct (train_ok this text tokens Hp) as (this' & Hrun & _ & Hk & _).
  split; [exact Ht|]. split; [rewrite Hrun; exact Hk|]. split; [lia|].
  rewrite (train_unfold _ _ _ Hp).
  destruct (train_loop_populates tokens (List.length tokens - order this) 0
              (train_header this tokens)) as (m & Hm & Hne);
    [lia | simpl; lia |].
  rewrite Hm. cbn [fst getStats vocabularySize]. unfold Map_size.
  destruct (wordTransitions m); [congruence|simpl; lia].
Qed.

Lemma train_raises_statistics_witness :
  preprocessText (fresh 1) (JSString test_text)
  = Ok ["This"; "is"; "a"; "test"; "."]
  /\ totalTransitions (getStats (fst (train (fresh 1) (JSString test_text))))
     = 4%Z.
Proof.
  assert (H : preprocessText (fresh 1) (JSString test_text)
              = Ok ["This"; "is"; "a"; "test"; "."]) by reflexivity.
  split; [exact H|].
  exact (proj1 (train_raises_statistics (fresh 1) (JSString test_text) _ H)).
Defined.

Lemma train_total_bounded this text :
  (totalTransitions (getStats this) <= totalTokens this)%Z ->
  (totalTransitions (getStats (fst (train this text)))
   <= totalTokens (fst (train this text)))%Z.
Proof.
  intros H. destruct (preprocessText this text) as [tokens|e] eqn:Hp.
  - rewrite (train_total this text tokens Hp).
    destruct (train_ok this text tokens Hp) as (this' & Hrun & _ & Hk & _).
    rewrite Hrun. cbn [fst]. lia.
  - rewrite (train_failed _ _ _ Hp). exact H.
Qed.

Lemma reachable_total_bounded this :
  reachable this -> (totalTransitions (getStats this) <= totalTokens this)%Z.
Proof.
  induction 1 as [arg this Hc | o this _ IH].
  - destruct (constructor_fresh _ _ Hc) as [E _]. rewrite E. simpl. lia.
  - destruct o; simpl run; auto. apply train_total_bounded. exact IH.
Qed.

(** X4: in every reachable model the figures of [getStats] are ordered:
    [vocabularySize <= totalTransitions <= totalTokens], and
    [averageTransitionsPerState] is 0, not a division by zero, exactly when
    there is no key. *)
Theorem statistics_ordered (this : EnhancedLLM) :
  reachable this ->
  (Z.of_nat (vocabularySize (getStats this)) <= totalTransitions (getStats this))%Z
  /\ (totalTransitions (getStats this) <= stats_totalTokens (getStats this))%Z
  /\ (vocabularySize (getStats this) = 0 ->
      averageTransitionsPerState (getStats this) = Number.zero)
  /\ (0 < vocabularySize (getStats this) ->
      averageTransitionsPerState (getStats this)
      = Number.div
          (Number.of_Z (total (fun t : Map Z => Z.of_nat (Map_size t))
                          (wordTransitions this)))
          (Number.of_Z (Z.of_nat (vocabularySize (getStats this))))).
Proof.
  intros Hr.
  pose proof (reachable_positive this Hr) as Hpos.
  pose proof (reachable_well_formed this Hr) as Hwf.
  split; [|split; [exact (reachable_total_bounded this Hr)|split]].
  - rewrite totalTransitions_total. cbn [getStats vocabularySize].
    apply total_at_least.
    pose proof (wf_inner _ Hwf) as Hin. unfold counts_positive in Hpos.
    rewrite Forall_forall in *. intros [g t] Hgt.
    specialize (Hpos _ Hgt). specialize (Hin _ Hgt). simpl in *.
    pose proof (total_at_least (fun c : Z => c) t Hpos) as Ht.
    unfold Map_size in Ht. destruct t; [congruence|simpl List.length in Ht; lia].
  - cbn [getStats vocabularySize averageTransitionsPerState]. intros ->. reflexivity.
  - cbn [getStats vocabularySize averageTransitionsPerState]. intros H.
    apply Nat.ltb_lt in H. rewrite H. reflexivity.
Qed.

Lemma statistics_ordered_witness :
  reachable fox_trained
  /\ vocabularySize (getStats fox_trained) = 20
  /\ totalTransitions (getStats fox_trained) = 21%Z
  /\ stats_totalTokens (getStats fox_trained) = 23%Z
  /\ (Z.of_nat (vocabularySize (getStats fox_trained))
      <= totalTransitions (getStats fox_trained))%Z
  /\ (totalTransitions (getStats fox_trained)
      <= stats_totalTokens (getStats fox_trained))%Z
  /\ 0 < vocabularySize (getStats fox_trained)
  /\ averageTransitionsPerState (getStats fox_trained)
     = Number.div
         (Number.of_Z (total (fun t : Map Z => Z.of_nat (Map_size t))
                         (wordTransitions fox_trained)))
         (Number.of_Z (Z.of_nat (vocabularySize (getStats fox_trained))))
  /\ total (fun t : Map Z => Z.of_nat (Map_size t)) (wordTransitions fox_trained)
     = 21%Z.
Proof.
  assert (H : reachable fox_trained).
  { unfold fox_trained. apply reach_run.
    apply (reach_new (JSInt 2) (fresh 2)). vm_compute. reflexivity. }
  assert (Hpos : 0 < vocabularySize (getStats fox_trained))
    by (apply Nat.ltb_lt; vm_compute; reflexivity).
  destruct (statistics_ordered fox_trained H) as (H1 & H2 & _ & H4).
  split; [exact H|].
  split; [vm_compute; reflexivity|].
  split; [vm_compute; reflexivity|].
  split; [vm_compute; reflexivity|].
  split; [exact H1|]. split; [exact H2|]. split; [exact Hpos|].
  split; [exact (H4 Hpos)|].
  vm_compute. reflexivity.
Defined.

(** ** Keys stay and stay unique *)

Section KeyFacts.
Context {V : Type}.
Implicit Types (m : Map V) (k : string) (v : V).

Lemma Map_has_In m k : Map_has m k = true <-> In k (Map_keys m).
Proof.
  unfold Map_has, Map_keys. induction m as [|[k0 v0] m IH]; simpl.
  - split; [discriminate|tauto].
  - destruct (k0 =? k)%string eqn:E.
    + apply String.eqb_eq in E. split; auto.
    + apply String.eqb_neq in E. rewrite IH. split; [auto|].
      intros [H|H]; [congruence|exact H].
Qed.

Lemma Map_keys_set_eq m k v :
  Map_keys (Map_set m k v)
  = if Map_has m k then Map_keys m else (Map_keys m ++ [k])%list.
Proof.
  unfold Map_has, Map_keys. induction m as [|[k0 v0] m IH]; simpl; [reflexivity|].
  destruct (k0 =? k)%string eqn:E; simpl.
  - apply String.eqb_eq in E. subst. reflexivity.
  - rewrite IH. destruct (Map_get m k); reflexivity.
Qed.

Lemma NoDup_snoc {A : Type} (l : list A) (x : A) :
  NoDup l -> ~ In x l -> NoDup (l ++ [x]).
Proof.
  induction 1 as [|a l Ha Hl IH]; simpl; intros Hx.
  - constructor; [tauto|constructor].
  - constructor.
    + rewrite in_app_iff. simpl. intros [H|[H|[]]]; [tauto|subst; tauto].
    + apply IH. tauto.
Qed.

Lemma Map_set_NoDup m k v :
  NoDup (Map_keys m) -> NoDup (Map_keys (Map_set m k v)).
Proof.
  intros H. rewrite Map_keys_set_eq.
  destruct (Map_has m k) eqn:E; [exact H|].
  apply NoDup_snoc; [exact H|].
  rewrite <- Map_has_In, E. discriminate.
Qed.

Lemma Map_keys_set_incl m k v : incl (Map_keys m) (Map_keys (Map_set m k v)).
Proof.
  rewrite Map_keys_set_eq. destruct (Map_has m k); [apply incl_refl|].
  apply incl_appl, incl_refl.
Qed.

End KeyFacts.

Lemma Set_has_In s x : Set_has s x = true <-> In x s.
Proof.
  unfold Set_has. rewrite existsb_exists. split.
  - intros (y & Hy & E). apply String.eqb_eq in E. subst. exact Hy.
  - intros H. exists x. split; [exact H|apply String.eqb_refl].
Qed.

Lemma Set_add_NoDup s x : NoDup s -> NoDup (Set_add s x).
Proof.
  intros H. unfold Set_add. destruct (Set_has s x) eqn:E; [exact H|].
  apply NoDup_snoc; [exact H|]. rewrite <- Set_has_In, E. discriminate.
Qed.

Lemma Set_add_incl s x : incl s (Set_add s x).
Proof.
  unfold Set_add. destruct (Set_has s x); [apply incl_refl|].
  apply incl_appl, incl_refl.
Qed.

Lemma Set_add_In s x g : In g (Set_add s x) <-> In g s \/ g = x.
Proof.
  unfold Set_add. destruct (Set_has s x) eqn:E.
  - apply Set_has_In in E. split; [auto|]. intros [H| ->]; assumption.
  - rewrite in_app_iff. simpl. split.
    + intros [H|[H|[]]]; auto.
    + intros [H| ->]; auto.
Qed.

Lemma transitions_of_Forall (Q : Map Z -> Prop) this gram :
  Q [] ->
  Forall (fun kv : string * Map Z => Q (snd kv)) (wordTransitions this) ->
  Q (transitions_of this gram).
Proof.
  intros H0 H. unfold transitions_of.
  destruct (Map_get (wordTransitions this) gram) as [t|] eqn:E; [|exact H0].
  exact (Map_get_Forall Q _ _ _ H E).
Qed.

Lemma record_transition_distinct this gram x :
  distinct this -> distinct (record_transition this gram x).
Proof.
  intros [Hk Hn Hs He]. constructor; simpl.
  - apply Map_set_NoDup. exact Hk.
  - apply (Map_set_Forall (fun t : Map Z => NoDup (Map_keys t))); [exact Hn|].
    apply Map_set_NoDup.
    apply (transitions_of_Forall (fun t => NoDup (Map_keys t)));
      [constructor|exact Hn].
  - exact Hs.
  - destruct (Str.ends_with_terminator x); [apply Set_add_NoDup|]; exact He.
Qed.

Lemma train_distinct this text :
  distinct this -> distinct (fst (train this text)).
Proof.
  intros H. apply train_invariant with (Q := distinct).
  - intros tokens _ [Hk Hn Hs He]. constructor; simpl; auto.
    apply Set_add_NoDup. exact Hs.
  - intros tokens i m x _ Hm _ _ _. apply record_transition_distinct. exact Hm.
  - auto.
  - exact H.
Qed.

Lemma reachable_distinct this : reachable this -> distinct this.
Proof.
  induction 1 as [arg this Hc | o this _ IH].
  - destruct (constructor_fresh _ _ Hc) as [E _]. rewrite E.
    constructor; simpl; constructor.
  - destruct o; simpl run; auto. apply train_distinct. exact IH.
Qed.

(** The lists that stand for the table and the two sets hold no key
    twice in a reachable model, as a [Map] and a [Set] do not. *)
Lemma reachable_keys_distinct (this : EnhancedLLM) :
  reachable this ->
  NoDup (Map_keys (wordTransitions this))
  /\ (forall g t, Map_get (wordTransitions this) g = Some t ->
                  NoDup (Map_keys t))
  /\ NoDup (startSequences this)
  /\ NoDup (endSequences this).
Proof.
  intros Hr. destruct (reachable_distinct this Hr) as [Hk Hn Hs He].
  repeat split; auto.
  intros g t Hg. exact (Map_get_Forall (fun t => NoDup (Map_keys t)) _ _ _ Hn Hg).
Qed.

Lemma extends_refl this : extends this this.
Proof.
  repeat split; try apply incl_refl.
  intros g t H. exists t. split; [exact H|apply incl_refl].
Qed.

Lemma extends_trans a b c : extends a b -> extends b c -> extends a c.
Proof.
  intros (Hs1 & He1 & Hk1) (Hs2 & He2 & Hk2). repeat split.
  - eapply incl_tran; eauto.
  - eapply incl_tran; eauto.
  - intros g t Hg. destruct (Hk1 g t Hg) as (t' & Hg' & Hi).
    destruct (Hk2 g t' Hg') as (t'' & Hg'' & Hi').
    exists t''. split; [exact Hg''|]. eapply incl_tran; eauto.
Qed.

Lemma record_transition_extends this gram x :
  extends this (record_transition this gram x).
Proof.
  repeat split; simpl.
  - apply incl_refl.
  - destruct (Str.ends_with_terminator x); [apply Set_add_incl|apply incl_refl].
  - intros g t Hg. rewrite Map_get_set.
    destruct (gram =? g)%string eqn:E.
    + apply String.eqb_eq in E. subst g. eexists. split; [reflexivity|].
      unfold transitions_of. rewrite Hg. apply Map_keys_set_incl.
    + exists t. split; [exact Hg|apply incl_refl].
Qed.

Lemma train_extends this text : extends this (fst (train this text)).
Proof.
  apply train_invariant with (P := extends this) (Q := extends this).
  - intros tokens _ _. repeat split; simpl.
    + apply Set_add_incl.
    + apply incl_refl.
    + intros g t H. exists t. split; [exact H|apply incl_refl].
  - intros tokens i m x _ Hm _ _ _.
    eapply extends_trans; [exact Hm|apply record_transition_extends].
  - auto.
  - apply extends_refl.
Qed.

(** X6: no operation changes the order or removes anything: after [train]
    on any argument, [generate] or [getStats], the order is the same and
    every start sequence, every end sequence, every key and every successor
    under a key is still there. *)
Theorem operations_only_add (o : operation) (this : EnhancedLLM) :
  order (run o this) = order this
  /\ incl (startSequences this) (startSequences (run o this))
  /\ incl (endSequences this) (endSequences (run o this))
  /\ incl (Map_keys (wordTransitions this)) (Map_keys (wordTransitions (run o this)))
  /\ forall g t,
      Map_get (wordTransitions this) g = Some t ->
      exists t', Map_get (wordTransitions (run o this)) g = Some t'
                 /\ incl (Map_keys t) (Map_keys t').
Proof.
  assert (Ho : order (run o this) = order this).
  { destruct o; simpl run; try reflexivity.
    destruct (preprocessText this text) as [tokens|e] eqn:Hp.
    - destruct (train_ok this text tokens Hp) as (this' & Hrun & Ho & _).
      rewrite Hrun. exact Ho.
    - rewrite (train_failed _ _ _ Hp). reflexivity. }
  assert (H : extends this (run o this)).
  { destruct o; simpl run; [apply train_extends | apply extends_refl ..]. }
  destruct H as (Hs & He & Hk). split; [exact Ho|]. repeat split; auto.
  intros g Hg. apply Map_has_In in Hg. unfold Map_has in Hg.
  destruct (Map_get (wordTransitions this) g) as [t|] eqn:E; [|discriminate].
  destruct (Hk g t E) as (t' & Hg' & _).
  apply Map_has_In. unfold Map_has. rewrite Hg'. reflexivity.
Qed.

(** ** Start and end sequences have successors *)

Lemma count_nonneg this g x : counts_positive this -> (0 <= count this g x)%Z.
Proof.
  unfold counts_positive, count. intros H.
  destruct (Map_get (wordTransitions this) g) as [t|] eqn:Eg; [|lia].
  pose proof (Map_get_Forall
                (fun t : Map Z => Forall (fun tc => (1 <= snd tc)%Z) t)
                _ _ _ H Eg) as Ht.
  destruct (Map_get t x) as [c|] eqn:Ex; [|lia].
  pose proof (Map_get_Forall (fun c : Z => (1 <= c)%Z) _ _ _ Ht Ex). simpl in *. lia.
Qed.

Lemma occurrences_hit ord tokens x :
  forall n i j,
    i <= j < i + n ->
    nth_error tokens (j + ord) = Some x ->
    (1 <= occurrences ord tokens n i (Str.join " " (slice tokens j ord)) x)%Z.
Proof.
  induction n as [|n IH]; intros i j Hj Hx; [lia|].
  cbn [occurrences].
  pose proof (occurrences_nonneg ord tokens n (S i)
                (Str.join " " (slice tokens j ord)) x) as H0.
  destruct (Nat.eq_dec j i) as [->|Hne].
  - rewrite String.eqb_refl, (nth_skipn_default _ _ _ _ Hx), String.eqb_refl.
    cbn [andb]. revert H0. generalize (occurrences ord tokens n (S i)
                                  (Str.join " " (slice tokens i ord)) x).
    intros z Hz. lia.
  - specialize (IH (S i) j ltac:(lia) Hx). revert IH.
    generalize (occurrences ord tokens n (S i)
                  (Str.join " " (slice tokens j ord)) x).
    intros z Hz. destruct (_ && _)%bool; lia.
Qed.

Lemma train_loop_ends tokens :
  forall n i this,
    i + n + order this <= List.length tokens ->
    exists this',
      train_loop tokens n i this = (this', Ok tt)
      /\ forall g,
          In g (endSequences this') ->
          In g (endSequences this)
          \/ exists j x,
              i <= j < i + n
              /\ nth_error tokens (j + order this) = Some x
              /\ Str.ends_with_terminator x = true
              /\ g = getNGram this tokens j.
Proof.
  induction n as [|n IH]; intros i this Hlen.
  - exists this. split; [reflexivity|]. auto.
  - cbn [train_loop].
    destruct (nth_error_in_range tokens (i + order this)) as [x Hx]; [lia|].
    rewrite (train_step_ok _ _ _ _ Hx).
    destruct (IH (S i) (record_transition this (getNGram this tokens i) x))
      as (this' & Hrun & Hends); [simpl; lia|].
    exists this'. split; [exact Hrun|].
    intros g Hg. destruct (Hends g Hg) as [Hin | (j & y & Hj & Hy & Hty & ->)].
    + simpl in Hin.
      destruct (Str.ends_with_terminator x) eqn:Ex; [|left; exact Hin].
      apply Set_add_In in Hin as [Hin| ->]; [left; exact Hin|].
      right. exists i, x. repeat split; auto; lia.
    + right. exists j, y. simpl in Hy. repeat split; auto; lia.
Qed.

Lemma train_linked this text :
  counts_positive this ->
  sequences_linked this -> sequences_linked (fst (train this text)).
Proof.
  intros Hpos [Hstart Hend].
  destruct (preprocessText this text) as [tokens|e] eqn:Hp;
    [|rewrite (train_failed _ _ _ Hp); split; assumption].
  pose proof (preprocessText_length _ _ _ Hp) as Hlen.
  destruct (train_ok this text tokens Hp) as (this' & Hrun & _ & _ & Hc).
  rewrite Hrun. cbn [fst].
  rewrite (train_unfold _ _ _ Hp) in Hrun.
  destruct (train_loop_count tokens (List.length tokens - order this) 0
              (train_header this tokens)) as (m1 & Hm1 & _ & _ & Hs1 & _);
    [simpl; lia|].
  destruct (train_loop_ends tokens (List.length tokens - order this) 0
              (train_header this tokens)) as (m2 & Hm2 & He2);
    [simpl; lia|].
  rewrite Hrun in Hm1, Hm2. injection Hm1 as <-. injection Hm2 as <-.
  assert (Hgrow : forall g x, (1 <= count this g x)%Z -> (1 <= count this' g x)%Z).
  { intros g x H. rewrite Hc.
    pose proof (occurrences_nonneg (order this) tokens
                  (List.length tokens - order this) 0 g x). lia. }
  assert (Hnew : forall j x,
             j < List.length tokens - order this ->
             nth_error tokens (j + order this) = Some x ->
             (1 <= count this' (getNGram this tokens j) x)%Z).
  { intros j x Hj Hx. rewrite Hc.
    pose proof (count_nonneg this (getNGram this tokens j) x Hpos).
    pose proof (occurrences_hit (order this) tokens x
                  (List.length tokens - order this) 0 j ltac:(lia) Hx) as H1.
    unfold getNGram in *. lia. }
  split.
  - intros g Hg. rewrite Hs1 in Hg. simpl in Hg.
    apply Set_add_In in Hg as [Hg| ->].
    + destruct (Hstart g Hg) as [x Hx]. exists x. auto.
    + destruct (nth_error_in_range tokens (0 + order this)) as [x Hx]; [lia|].
      exists x. apply Hnew; [lia|exact Hx].
  - intros g Hg. destruct (He2 g Hg) as [Hin | (j & x & Hj & Hx & Hty & ->)].
    + simpl in Hin. destruct (Hend g Hin) as (x & Hty & Hx).
      exists x. split; [exact Hty|auto].
    + simpl in Hx. exists x. split; [exact Hty|].
      apply Hnew; [lia|exact Hx].
Qed.

Lemma reachable_linked this : reachable this -> sequences_linked this.
Proof.
  induction 1 as [arg this Hc | o this Hr IH].
  - destruct (constructor_fresh _ _ Hc) as [E _]. rewrite E.
    split; intros g [].
  - destruct o; simpl run; auto.
    apply train_linked; [apply reachable_positive; exact Hr|exact IH].
Qed.

(** X7: in every reachable model each start sequence is a key with a
    successor of count at least 1, so generation from a drawn start always
    has a first step to take, and each end sequence has a successor that
    ends in a sentence terminator. *)
Theorem sequences_have_successors (this : EnhancedLLM) :
  reachable this ->
  (forall g, In g (startSequences this) ->
             Map_has (wordTransitions this) g = true
             /\ exists x, (1 <= count this g x)%Z)
  /\ (forall g, In g (endSequences this) ->
                Map_has (wordTransitions this) g = true
                /\ exists x, Str.ends_with_terminator x = true
                             /\ (1 <= count this g x)%Z).
Proof.
  intros Hr. destruct (reachable_linked this Hr) as [Hs He].
  assert (Hhas : forall g x, (1 <= count this g x)%Z ->
                             Map_has (wordTransitions this) g = true).
  { intros g x H. unfold count in H. unfold Map_has.
    destruct (Map_get (wordTransitions this) g); [reflexivity|lia]. }
  split.
  - intros g Hg. destruct (Hs g Hg) as [x Hx]. split; [exact (Hhas g x Hx)|].
    exists x. exact Hx.
  - intros g Hg. destruct (He g Hg) as (x & Hty & Hx).
    split; [exact (Hhas g x Hx)|]. exists x. auto.
Qed.

Lemma sequences_have_successors_witness :
  reachable test_model
  /\ In "This" (startSequences test_model)
  /\ Map_has (wordTransitions test_model) "This" = true.
Proof.
  assert (H : reachable test_model).
  { unfold test_model. apply reach_run.
    apply (reach_new JSUndefined (fresh 1)). reflexivity. }
  assert (Hin : In "This" (startSequences test_model))
    by (vm_compute; tauto).
  split; [exact H|]. split; [exact Hin|].
  exact (proj1 (proj1 (sequences_have_successors test_model H) "This" Hin)).
Defined.

(** ** What the generation loop returns *)

Lemma str_app_nil_r (s : string) : s ++ "" = s.
Proof. induction s as [|c s IH]; simpl; [reflexivity|]. rewrite IH. reflexivity. Qed.

Lemma str_app_assoc (a b c : string) : (a ++ b) ++ c = a ++ (b ++ c).
Proof. induction a as [|x a IH]; simpl; [reflexivity|]. rewrite IH. reflexivity. Qed.

Lemma join_cons (tok : string) (toks : list string) :
  Str.join " " (tok :: toks)
  = tok ++ match toks with [] => "" | _ => " " ++ Str.join " " toks end.
Proof.
  unfold Str.join. destruct toks as [|tok' toks]; simpl.
  - symmetry. apply str_app_nil_r.
  - reflexivity.
Qed.

Lemma join_app (a b : list string) :
  a <> [] ->
  Str.join " " (a ++ b)
  = Str.join " " a ++ match b with [] => "" | _ => " " ++ Str.join " " b end.
Proof.
  induction a as [|tok a IH]; [congruence|]. intros _.
  destruct a as [|tok' a].
  - simpl app. rewrite join_cons. reflexivity.
  - change ((tok :: tok' :: a) ++ b)%list with (tok :: ((tok' :: a) ++ b))%list.
    rewrite join_cons. simpl app at 1.
    rewrite IH by discriminate.
    rewrite (join_cons tok (tok' :: a)). rewrite !str_app_assoc. reflexivity.
Qed.

Lemma join_split (s : string) : Str.join " " (Str.split " " s) = s.
Proof.
  unfold Str.split. induction s as [|c s IH]; [reflexivity|].
  cbn [Str.split_at]. destruct (Str.split_at " " s) as [tok rest].
  destruct (c =? " ")%char eqn:E.
  - apply Ascii.eqb_eq in E. subst c. rewrite join_cons, IH. reflexivity.
  - transitivity (String c (Str.join " " (tok :: rest))).
    + rewrite !join_cons. reflexivity.
    + rewrite IH. reflexivity.
Qed.

Lemma split_pieces_no_blank (s : string) :
  Forall (fun tok => no_blank tok = true) (Str.split " " s).
Proof.
  unfold Str.split. induction s as [|c s IH]; [repeat constructor|].
  cbn [Str.split_at]. destruct (Str.split_at " " s) as [tok rest].
  destruct (c =? " ")%char eqn:E.
  - constructor; [reflexivity|exact IH].
  - inversion IH; subst. constructor; [|assumption].
    unfold no_blank in *. simpl. rewrite E. simpl. assumption.
Qed.

Section LoopFacts.
Variable approx : num -> num -> num.
Variable random : nat -> num.

Lemma selectNextToken_In transitions temperature random01 token :
  selectNextToken approx transitions temperature random01 = Ok token ->
  In token (Map_keys transitions).
Proof.
  unfold selectNextToken.
  destruct (walk approx transitions temperature _ Number.zero) as [t|] eqn:Hw.
  - intros [= <-]. exact (walk_In _ _ _ _ _ _ Hw).
  - destruct (nth_error transitions _) as [[t c]|] eqn:He; [|discriminate].
    intros [= <-]. apply nth_error_In in He.
    unfold Map_keys. change t with (fst (t, c)). apply in_map. exact He.
Qed.

(** With enough fuel the loop ends.  If it returns, its tokens are the ones
    it was given followed by a chain of observed successors, and when there
    are fewer than [maxLength] of them it stopped for one of its two
    reasons; if it throws, the error is the wrapped one. *)
Lemma generate_loop_spec this minLength maxLength temperature endOnSentence :
  forall fuel k currentGram generatedTokens,
    Z.to_nat (maxLength - Z.of_nat (List.length generatedTokens)) < fuel ->
    match generate_loop approx random fuel this minLength maxLength temperature
            endOnSentence k currentGram generatedTokens with
    | Some (Ok out) =>
        exists more,
          out = (generatedTokens ++ more)%list
          /\ (currentGram = gram_after this generatedTokens ->
              follows this generatedTokens more
              /\ ((Z.of_nat (List.length out) < maxLength)%Z ->
                  stopped_early this minLength endOnSentence out more))
    | Some (Throw e) =>
        exists message,
          e = ValidationError ("Error during text generation: " ++ message)
    | None => False
    end.
Proof.
  induction fuel as [|fuel IH]; intros k currentGram generatedTokens Hfuel;
    [lia|].
  cbn [generate_loop].
  destruct (Z.of_nat (List.length generatedTokens) <? maxLength)%Z eqn:Hlt.
  - apply Z.ltb_lt in Hlt.
    destruct (Map_get (wordTransitions this) currentGram) as [transitions|] eqn:Hg.
    + destruct (selectNextToken approx transitions temperature (random k))
        as [nextToken|e] eqn:Hsel; [|eexists; reflexivity].
      pose proof (selectNextToken_In _ _ _ _ Hsel) as Hin.
      assert (Hlen : Z.of_nat (List.length (generatedTokens ++ [nextToken])%list)
                     = (Z.of_nat (List.length generatedTokens) + 1)%Z).
      { rewrite length_app. simpl List.length. lia. }
      destruct (endOnSentence && Str.ends_with_terminator nextToken
                && (minLength <=? _)%Z) eqn:Hstop.
      * exists [nextToken]. split; [reflexivity|]. intros ->.
        split; [split; [exists transitions; auto|exact I]|].
        intros _. right.
        apply andb_prop in Hstop as [Hstop Hmin].
        apply andb_prop in Hstop as [Heos Hterm].
        apply Z.leb_le in Hmin. rewrite last_last.
        repeat split; auto. discriminate.
      * specialize (IH (S k)
                      (Str.join " "
                         (slice_last (generatedTokens ++ [nextToken])%list
                            (order this)))
                      (generatedTokens ++ [nextToken])%list).
        destruct (generate_loop approx random fuel this minLength maxLength
                    temperature endOnSentence (S k) _ _) as [[out|e]|].
        -- destruct IH as (more & -> & Hrest); [lia|].
           destruct (Hrest eq_refl) as [Hfol Hearly].
           exists (nextToken :: more). rewrite <- app_assoc. simpl app.
           split; [reflexivity|]. intros ->.
           split; [split; [exists transitions; auto|exact Hfol]|].
           intros Hshort. rewrite <- app_assoc in Hearly. simpl app in Hearly.
           destruct (Hearly Hshort) as [Hdead | (He & _ & Ht & Hm)].
           ++ left. exact Hdead.
           ++ right. repeat split; auto. discriminate.
        -- apply IH. lia.
        -- apply IH. lia.
    + exists []. rewrite app_nil_r. split; [reflexivity|]. intros ->.
      split; [exact I|]. intros _. left. exact Hg.
  - apply Z.ltb_ge in Hlt.
    exists []. rewrite app_nil_r. split; [reflexivity|]. intros _.
    split; [exact I|]. intros Hshort. lia.
Qed.

Lemma follows_at this :
  forall more toks pre x post,
    follows this toks more ->
    more = (pre ++ x :: post)%list ->
    observed this (toks ++ pre)%list x.
Proof.
  induction more as [|y more IH]; intros toks pre x post Hfol Hsplit.
  - destruct pre; discriminate.
  - destruct Hfol as [Hobs Hfol]. destruct pre as [|p pre].
    + simpl in Hsplit. injection Hsplit as -> _. rewrite app_nil_r. exact Hobs.
    + simpl in Hsplit. injection Hsplit as -> ->.
      specialize (IH (toks ++ [p])%list pre x post Hfol eq_refl).
      rewrite <- app_assoc in IH. exact IH.
Qed.

Lemma observed_count this toks x :
  counts_positive this -> observed this toks x ->
  (1 <= count this (gram_after this toks) x)%Z.
Proof.
  intros Hpos (transitions & Hg & Hin). unfold count. rewrite Hg.
  apply Map_has_In in Hin. unfold Map_has in Hin.
  destruct (Map_get transitions x) as [c|] eqn:Hx; [|discriminate].
  pose proof (Map_get_Forall
                (fun t : Map Z => Forall (fun tc => (1 <= snd tc)%Z) t)
                _ _ _ Hpos Hg) as Ht.
  exact (Map_get_Forall (fun c : Z => (1 <= c)%Z) _ _ _ Ht Hx).
Qed.

Lemma seed_gram_after this currentGram :
  gram_ok (order this) currentGram ->
  gram_after this (Str.split " " currentGram) = currentGram.
Proof.
  unfold gram_ok, gram_after, slice_last. intros ->.
  rewrite Nat.sub_diag. simpl skipn. apply join_split.
Qed.

(** The parts of a successful [generateTokens]. *)
Lemma generateTokens_inv this startPhrase options out :
  generateTokens approx random this startPhrase options = Some (Ok out) ->
  wordTransitions this <> []
  /\ validateOptions options = Ok tt
  /\ exists currentGram k,
      choose_start random this startPhrase = Ok (currentGram, k)
      /\ generate_loop approx random
           (S (Z.to_nat (int_of (opt_maxLength options)
                         - Z.of_nat (List.length (Str.split " " currentGram)))))
           this (int_of (opt_minLength options)) (int_of (opt_maxLength options))
           (num_of (opt_temperature options))
           (bool_of (opt_endOnSentence options))
           k currentGram (Str.split " " currentGram)
         = Some (Ok out).
Proof.
  unfold generateTokens.
  destruct (Map_size (wordTransitions this) =? 0)%nat eqn:Hsz; [discriminate|].
  destruct (validateOptions options) as [[]|e]; [|discriminate].
  destruct (choose_start random this startPhrase) as [[currentGram k]|e];
    [|discriminate].
  intros H. split; [|split; [reflexivity|]].
  - intros E. rewrite E in Hsz. discriminate.
  - exists currentGram, k. split; [reflexivity|exact H].
Qed.

Lemma generateTokens_chain this startPhrase options out :
  well_formed this ->
  generateTokens approx random this startPhrase options = Some (Ok out) ->
  exists currentGram k more,
    choose_start random this startPhrase = Ok (currentGram, k)
    /\ out = (Str.split " " currentGram ++ more)%list
    /\ follows this (Str.split " " currentGram) more
    /\ ((Z.of_nat (List.length out) < int_of (opt_maxLength options))%Z ->
        stopped_early this (int_of (opt_minLength options))
          (bool_of (opt_endOnSentence options)) out more).
Proof.
  intros Hwf Hgen.
  destruct (generateTokens_inv _ _ _ _ Hgen)
    as (_ & _ & currentGram & k & Hstart & Hloop).
  pose proof (generate_loop_spec this
                (int_of (opt_minLength options)) (int_of (opt_maxLength options))
                (num_of (opt_temperature options))
                (bool_of (opt_endOnSentence options))
                (S (Z.to_nat (int_of (opt_maxLength options)
                              - Z.of_nat (List.length (Str.split " " currentGram)))))
                k currentGram (Str.split " " currentGram)) as Hspec.
  rewrite Hloop in Hspec. destruct Hspec as (more & Hout & Hrest); [lia|].
  exists currentGram, k, more. split; [exact Hstart|]. split; [exact Hout|].
  apply Hrest. symmetry. apply seed_gram_after.
  exact (choose_start_ok random _ _ _ _ Hwf Hstart).
Qed.

End LoopFacts.

(** X8: in every reachable model, whatever [generate] returns contains only
    transitions seen in training: the tokens are the seed n-gram followed by
    tokens each of which has a count of at least 1 as successor of the
    [order] tokens before it. *)
Theorem generated_transitions_were_observed (approx : num -> num -> num)
  (random : nat -> num) (this : EnhancedLLM) (startPhrase : value)
  (options : GenerationOptions) (out : list string) :
  reachable this ->
  generateTokens approx random this startPhrase options = Some (Ok out) ->
  exists currentGram k more,
    choose_start random this startPhrase = Ok (currentGram, k)
    /\ out = (Str.split " " currentGram ++ more)%list
    /\ forall pre x post,
        more = (pre ++ x :: post)%list ->
        (1 <= count this
                (Str.join " "
                   (slice_last (Str.split " " currentGram ++ pre)%list (order this)))
                x)%Z.
Proof.
  intros Hr Hgen.
  destruct (generateTokens_chain approx random this startPhrase options out
              (reachable_well_formed this Hr) Hgen)
    as (currentGram & k & more & Hstart & Hout & Hfol & _).
  exists currentGram, k, more. split; [exact Hstart|]. split; [exact Hout|].
  intros pre x post Hsplit.
  apply (observed_count this (Str.split " " currentGram ++ pre)%list x
           (reachable_positive this Hr)).
  exact (follows_at this more _ pre x post Hfol Hsplit).
Qed.

(** X9: in every reachable model, when [generate] returns fewer tokens than
    [maxLength], either the last [order] tokens are not a key of the table,
    or [endOnSentence] is set, the last token was sampled and ends in a
    sentence terminator, and there are at least [minLength] tokens.
    [minLength] is not a lower bound by itself. *)
Theorem generate_stops_for_a_reason (approx : num -> num -> num)
  (random : nat -> num) (this : EnhancedLLM) (startPhrase : value)
  (options : GenerationOptions) (out : list string) :
  reachable this ->
  generateTokens approx random this startPhrase options = Some (Ok out) ->
  (Z.of_nat (List.length out) < int_of (opt_maxLength options))%Z ->
  Map_get (wordTransitions this)
    (Str.join " " (slice_last out (order this))) = None
  \/ (bool_of (opt_endOnSentence options) = true
      /\ order this < List.length out
      /\ Str.ends_with_terminator (last out "") = true
      /\ (int_of (opt_minLength options) <= Z.of_nat (List.length out))%Z).
Proof.
  intros Hr Hgen Hshort.
  pose proof (reachable_well_formed this Hr) as Hwf.
  destruct (generateTokens_chain approx random this startPhrase options out
              Hwf Hgen)
    as (currentGram & k & more & Hstart & Hout & _ & Hearly).
  destruct (Hearly Hshort) as [Hdead | (He & Hmore & Ht & Hm)].
  - left. exact Hdead.
  - right. repeat split; auto.
    pose proof (choose_start_ok random _ _ _ _ Hwf Hstart) as Hseed.
    unfold gram_ok in Hseed. rewrite Hout, length_app, Hseed.
    destruct more; [congruence|simpl; lia].
Qed.

Lemma generated_transitions_were_observed_witness :
  reachable test_model
  /\ generateTokens pow_1 zero_source test_model (JSString "is") round_trip_options
     = Some (Ok ["is"; "a"; "test"; "."])
  /\ exists currentGram k more,
      choose_start zero_source test_model (JSString "is") = Ok (currentGram, k)
      /\ ["is"; "a"; "test"; "."] = (Str.split " " currentGram ++ more)%list
      /\ forall pre x post,
          more = (pre ++ x :: post)%list ->
          (1 <= count test_model
                  (Str.join " "
                     (slice_last (Str.split " " currentGram ++ pre)%list
                        (order test_model)))
                  x)%Z.
Proof.
  assert (H : reachable test_model).
  { unfold test_model. apply reach_run.
    apply (reach_new JSUndefined (fresh 1)). reflexivity. }
  assert (Hg : generateTokens pow_1 zero_source test_model (JSString "is")
                 round_trip_options
               = Some (Ok ["is"; "a"; "test"; "."]))
    by (vm_compute; reflexivity).
  split; [exact H|]. split; [exact Hg|].
  exact (generated_transitions_were_observed pow_1 zero_source test_model
           (JSString "is") round_trip_options _ H Hg).
Defined.

Lemma generate_stops_for_a_reason_witness :
  reachable test_model
  /\ generateTokens pow_1 zero_source test_model (JSString "is") round_trip_options
     = Some (Ok ["is"; "a"; "test"; "."])
  /\ (Z.of_nat (List.length ["is"; "a"; "test"; "."])
      < int_of (opt_maxLength round_trip_options))%Z
  /\ (Map_get (wordTransitions test_model)
        (Str.join " " (slice_last ["is"; "a"; "test"; "."] (order test_model)))
      = None
      \/ (bool_of (opt_endOnSentence round_trip_options) = true
          /\ order test_model < List.length ["is"; "a"; "test"; "."]
          /\ Str.ends_with_terminator (last ["is"; "a"; "test"; "."] "") = true
          /\ (int_of (opt_minLength round_trip_options)
              <= Z.of_nat (List.length ["is"; "a"; "test"; "."]))%Z)).
Proof.
  assert (H : reachable test_model).
  { unfold test_model. apply reach_run.
    apply (reach_new JSUndefined (fresh 1)). reflexivity. }
  assert (Hg : generateTokens pow_1 zero_source test_model (JSString "is")
                 round_trip_options
               = Some (Ok ["is"; "a"; "test"; "."]))
    by (vm_compute; reflexivity).
  assert (Hs : (Z.of_nat (List.length ["is"; "a"; "test"; "."])
                < int_of (opt_maxLength round_trip_options))%Z)
    by (vm_compute; reflexivity).
  split; [exact H|]. split; [exact Hg|]. split; [exact Hs|].
  exact (generate_stops_for_a_reason pow_1 zero_source test_model
           (JSString "is") round_trip_options _ H Hg Hs).
Defined.

(** ** How [generate] ends *)

(** [generate] with an options object always ends; see the theorem on
    [generate_call] below. *)
Lemma generate_ends_with_options (approx : num -> num -> num)
  (random : nat -> num) (this : EnhancedLLM) (startPhrase : value)
  (options : GenerationOptions) :
  exists r,
    generate approx random this startPhrase options = Some r
    /\ (wordTransitions this = [] ->
        r = Throw (ValidationError "Model must be trained before generating text"))
    /\ (r = Throw TypeError ->
        wordTransitions this <> []
        /\ validateOptions options = Ok tt
        /\ default startPhrase JSNull = JSNull
        /\ pick_start this (random 0) = None).
Proof.
  unfold generate, generateTokens.
  destruct (wordTransitions this) as [|kv w] eqn:Hw.
  { eexists. split; [reflexivity|]. split; [reflexivity|discriminate]. }
  cbn [Map_size List.length Nat.eqb].
  destruct (validateOptions options) as [[]|e] eqn:Hv.
  2:{ exists (Throw e). split; [reflexivity|]. split; [discriminate|].
      intros [= ->]. exfalso. revert Hv. unfold validateOptions.
      repeat match goal with
             | |- context [if ?b then _ else _] => destruct b
             end; discriminate. }
  unfold choose_start.
  destruct (default startPhrase JSNull) as [| |b|x|s|] eqn:Hd;
    try (eexists; split; [reflexivity|]; split; discriminate).
  - destruct (pick_start this (random 0)) as [currentGram|] eqn:Hp.
    + pose proof (generate_loop_spec approx random this
                    (int_of (opt_minLength options)) (int_of (opt_maxLength options))
                    (num_of (opt_temperature options))
                    (bool_of (opt_endOnSentence options))
                    (S (Z.to_nat (int_of (opt_maxLength options)
                                  - Z.of_nat (List.length (Str.split " " currentGram)))))
                    1 currentGram (Str.split " " currentGram)) as Hspec.
      destruct (generate_loop _ _ _ _ _ _ _ _ _ _ _) as [[out|e]|].
      * eexists. split; [reflexivity|]. split; discriminate.
      * destruct Hspec as [message ->]; [lia|].
        eexists. split; [reflexivity|]. split; discriminate.
      * exfalso. apply Hspec. lia.
    + eexists. split; [reflexivity|]. split; [discriminate|].
      intros _. repeat split; auto. discriminate.
  - destruct (negb (Map_has (wordTransitions this) (Str.toLowerCase s))).
    + eexists. split; [reflexivity|]. split; discriminate.
    + pose proof (generate_loop_spec approx random this
                    (int_of (opt_minLength options)) (int_of (opt_maxLength options))
                    (num_of (opt_temperature options))
                    (bool_of (opt_endOnSentence options))
                    (S (Z.to_nat (int_of (opt_maxLength options)
                                  - Z.of_nat (List.length
                                                (Str.split " " (Str.toLowerCase s))))))
                    0 (Str.toLowerCase s)
                    (Str.split " " (Str.toLowerCase s))) as Hspec.
      destruct (generate_loop _ _ _ _ _ _ _ _ _ _ _) as [[out|e]|].
      * eexists. split; [reflexivity|]. split; discriminate.
      * destruct Hspec as [message ->]; [lia|].
        eexists. split; [reflexivity|]. split; discriminate.
      * exfalso. apply Hspec. lia.
Qed.

(** X10: a call of [generate] always ends, on every model and for every
    pair of arguments: it needs no more iterations than [maxLength] allows
    tokens.  On a model without transitions it throws "Model must be
    trained before generating text", whatever the arguments.  An error
    inside the loop comes out as a ValidationError.  A TypeError escapes in
    two cases only, both on a trained model: [options] is [null], or the
    options are valid, no start phrase is given and the draw does not index
    [startSequences]. *)
Theorem generate_always_ends (approx : num -> num -> num)
  (random : nat -> num) (this : EnhancedLLM) (startPhrase : value)
  (argument : options_argument) :
  exists r,
    generate_call approx random this startPhrase argument = Some r
    /\ (wordTransitions this = [] ->
        r = Throw (ValidationError "Model must be trained before generating text"))
    /\ (wordTransitions this <> [] -> argument = options_null ->
        r = Throw TypeError)
    /\ (r = Throw TypeError ->
        wordTransitions this <> []
        /\ (argument = options_null
            \/ (validateOptions (options_of argument) = Ok tt
                /\ default startPhrase JSNull = JSNull
                /\ pick_start this (random 0) = None))).
Proof.
  destruct (generate_ends_with_options approx random this startPhrase
              (options_of argument)) as (r & Hr & Hun & Hty).
  destruct argument as [| |options|].
  2:{ clear r Hr Hun Hty. unfold generate_call.
      destruct (wordTransitions this) as [|kv w] eqn:Hw.
      - eexists. split; [reflexivity|]. split; [reflexivity|].
        split; [congruence|discriminate].
      - eexists. split; [reflexivity|]. split; [discriminate|].
        split; [reflexivity|]. intros _. split; [discriminate|].
        left. reflexivity. }
  all: exists r; split; [exact Hr|]; split; [exact Hun|];
    split; [discriminate|];
    intros E; destruct (Hty E) as (H1 & H2); split; [exact H1|];
    right; exact H2.
Qed.

(** X11: the string that [generate] returns begins with the seed n-gram.
    With a start phrase that is the phrase in lower case, whatever its case
    was in the call; without one it is a member of [startSequences]. *)
Theorem output_begins_with_seed (approx : num -> num -> num)
  (random : nat -> num) (this : EnhancedLLM) (startPhrase : value)
  (options : GenerationOptions) (output : string) :
  generate approx random this startPhrase options = Some (Ok output) ->
  exists currentGram rest,
    output = currentGram ++ rest
    /\ (forall phrase, startPhrase = JSString phrase ->
                       currentGram = Str.toLowerCase phrase
                       /\ Map_has (wordTransitions this) currentGram = true)
    /\ (startPhrase = JSNull \/ startPhrase = JSUndefined ->
        In currentGram (startSequences this)).
Proof.
  unfold generate.
  destruct (generateTokens approx random this startPhrase options)
    as [[out|e]|] eqn:Hgen; try discriminate.
  intros [= <-].
  destruct (generateTokens_inv approx random _ _ _ _ Hgen)
    as (_ & _ & currentGram & k & Hstart & Hloop).
  pose proof (generate_loop_spec approx random this
                (int_of (opt_minLength options)) (int_of (opt_maxLength options))
                (num_of (opt_temperature options))
                (bool_of (opt_endOnSentence options))
                (S (Z.to_nat (int_of (opt_maxLength options)
                              - Z.of_nat (List.length (Str.split " " currentGram)))))
                k currentGram (Str.split " " currentGram)) as Hspec.
  rewrite Hloop in Hspec. destruct Hspec as (more & -> & _); [lia|].
  exists currentGram. eexists. split; [|split].
  - rewrite join_app, join_split; [reflexivity|].
    unfold Str.split. destruct (Str.split_at " " currentGram). discriminate.
  - intros phrase ->. unfold choose_start in Hstart. simpl in Hstart.
    destruct (Map_has (wordTransitions this) (Str.toLowerCase phrase)) eqn:Hh;
      [|discriminate].
    simpl in Hstart. injection Hstart as <- _. auto.
  - intros Hnull. unfold choose_start in Hstart.
    assert (Hd : default startPhrase JSNull = JSNull)
      by (destruct Hnull as [-> | ->]; reflexivity).
    rewrite Hd in Hstart. unfold pick_start in Hstart.
    destruct (Number.floor _) as [i|]; [|discriminate].
    destruct (i <? 0)%Z; [discriminate|].
    destruct (nth_error (startSequences this) (Z.to_nat i)) as [g|] eqn:E;
      [|discriminate].
    injection Hstart as <- _. exact (nth_error_In _ _ E).
Qed.

Lemma output_begins_with_seed_witness :
  generate pow_1 zero_source test_model (JSString "IS") round_trip_options
  = Some (Ok "is a test .")
  /\ exists currentGram rest,
      "is a test ." = currentGram ++ rest
      /\ (forall phrase, JSString "IS" = JSString phrase ->
                         currentGram = Str.toLowerCase phrase
                         /\ Map_has (wordTransitions test_model) currentGram = true)
      /\ (JSString "IS" = JSNull \/ JSString "IS" = JSUndefined ->
          In currentGram (startSequences test_model)).
Proof.
  assert (H : generate pow_1 zero_source test_model (JSString "IS")
                round_trip_options
              = Some (Ok "is a test .")) by (vm_compute; reflexivity).
  split; [exact H|].
  exact (output_begins_with_seed pow_1 zero_source test_model (JSString "IS")
           round_trip_options _ H).
Defined.

(** ** Temperatures at the edge *)

Lemma nth_error_last {A : Type} (l : list A) (d : A) :
  l <> [] -> nth_error l (List.length l - 1) = Some (last l d).
Proof.
  induction l as [|a l IH]; [congruence|]. intros _.
  destruct l as [|b l]; [reflexivity|].
  replace (List.length (a :: b :: l) - 1) with (S (List.length (b :: l) - 1))
    by (simpl; lia).
  cbn [nth_error]. rewrite IH by discriminate. reflexivity.
Qed.

Lemma weight_NaN approx prob : weight approx Number.NaN prob = Number.NaN.
Proof. reflexivity. Qed.

Lemma walk_NaN approx entries rand :
  forall cumulative, walk approx entries Number.NaN rand cumulative = None.
Proof.
  induction entries as [|[token prob] entries IH]; intros cumulative;
    [reflexivity|].
  cbn [walk]. rewrite weight_NaN.
  replace (Number.add cumulative Number.NaN) with Number.NaN
    by (destruct cumulative; reflexivity).
  replace (Number.leb rand Number.NaN) with false
    by (destruct rand; reflexivity).
  apply IH.
Qed.

(** X12: [validateOptions] lets two temperatures through that are not
    positive reals.  NaN passes because [NaN <= 0] is false; every weight is
    then NaN and [selectNextToken] returns the last entry's token for every
    draw.  Infinity passes; the exponent is then 0 and every weight is 1,
    whatever the counts.  A temperature that is [<= 0], zero included, is
    refused, and so is one that is not a Number. *)
Theorem temperature_edge_cases :
  validateOptions (with_temperature Number.NaN) = Ok tt
  /\ (forall approx transitions random01,
        transitions <> [] ->
        selectNextToken approx transitions Number.NaN random01
        = Ok (fst (last transitions ("", 0%Z))))
  /\ validateOptions (with_temperature Number.Infinity) = Ok tt
  /\ (forall approx prob, weight approx Number.Infinity prob = Number.one)
  /\ (forall t, Number.leb t Number.zero = true ->
                validateOptions (with_temperature t)
                = Throw (ValidationError "temperature must be a positive number"))
  /\ (forall v, (forall t, v <> JSNumber t) -> v <> JSUndefined ->
                validateOptions
                  {| minLength := JSUndefined; maxLength := JSUndefined;
                     temperature := v; endOnSentence := JSUndefined |}
                = Throw (ValidationError "temperature must be a positive number")).
Proof.
  split; [vm_compute; reflexivity|].
  split.
  { intros approx transitions random01 Hne. unfold selectNextToken.
    rewrite walk_NaN, (nth_error_last transitions ("", 0%Z) Hne).
    destruct (last transitions ("", 0%Z)). reflexivity. }
  split; [vm_compute; reflexivity|].
  split; [intros approx prob; reflexivity|].
  split.
  - intros t Ht. unfold validateOptions. cbn -[Number.leb].
    change (Number.isInteger (Number.of_Z 10)) with true.
    change (Number.isInteger (Number.of_Z 50)) with true.
    change (Number.to_Z (Number.of_Z 10)) with 10%Z.
    change (Number.to_Z (Number.of_Z 50)) with 50%Z.
    cbn -[Number.leb]. rewrite Ht. reflexivity.
  - intros v Hnum Hdef. unfold validateOptions. cbn.
    change (Number.isInteger (Number.of_Z 10)) with true.
    change (Number.isInteger (Number.of_Z 50)) with true.
    change (Number.to_Z (Number.of_Z 10)) with 10%Z.
    change (Number.to_Z (Number.of_Z 50)) with 50%Z.
    cbn. destruct v; try reflexivity; [congruence|].
    exfalso. exact (Hnum x eq_refl).
Qed.

Lemma temperature_edge_cases_witness :
  [("a", 3%Z); ("b", 1%Z)] <> []
  /\ selectNextToken pow_1 [("a", 3%Z); ("b", 1%Z)] Number.NaN Number.zero
     = Ok (fst (last [("a", 3%Z); ("b", 1%Z)] ("", 0%Z))).
Proof.
  assert (H : [("a", 3%Z); ("b", 1%Z)] <> []) by discriminate.
  split; [exact H|].
  exact (proj1 (proj2 temperature_edge_cases) pow_1 _ Number.zero H).
Defined.

(** ** The case of the start phrase *)

Lemma lower_idempotent (c : ascii) : Str.lower (Str.lower c) = Str.lower c.
Proof. destruct c as [[] [] [] [] [] [] [] []]; reflexivity. Qed.

Lemma toLowerCase_idempotent (s : string) :
  Str.toLowerCase (Str.toLowerCase s) = Str.toLowerCase s.
Proof.
  induction s as [|c s IH]; [reflexivity|].
  simpl. rewrite lower_idempotent, IH. reflexivity.
Qed.

(** X13: [generate] looks the start phrase up in lower case only.  A key
    that is not its own lower-case form is never the seed of a call with a
    start phrase; and on a model with transitions and valid options, a
    phrase whose lower-case form is not a key makes [generate] throw
    "Start phrase not found in training data", even if the phrase as
    written is a key. *)
Theorem start_phrase_matches_lower_case_only (approx : num -> num -> num)
  (random : nat -> num) (this : EnhancedLLM) :
  (forall phrase currentGram k,
      choose_start random this (JSString phrase) = Ok (currentGram, k) ->
      currentGram = Str.toLowerCase phrase
      /\ Str.toLowerCase currentGram = currentGram)
  /\ (forall key phrase k,
        Str.toLowerCase key <> key ->
        choose_start random this (JSString phrase) <> Ok (key, k))
  /\ (forall phrase options,
        wordTransitions this <> [] ->
        validateOptions options = Ok tt ->
        Map_has (wordTransitions this) (Str.toLowerCase phrase) = false ->
        generate approx random this (JSString phrase) options
        = Some (Throw (ValidationError "Start phrase not found in training data"))).
Proof.
  assert (H1 : forall phrase currentGram k,
             choose_start random this (JSString phrase) = Ok (currentGram, k) ->
             currentGram = Str.toLowerCase phrase
             /\ Str.toLowerCase currentGram = currentGram).
  { intros phrase currentGram k. unfold choose_start. simpl.
    destruct (negb _); [discriminate|]. intros [= <- _].
    split; [reflexivity|apply toLowerCase_idempotent]. }
  split; [exact H1|]. split.
  - intros key phrase k Hkey Hstart.
    destruct (H1 phrase key k Hstart) as [_ Hl]. exact (Hkey Hl).
  - intros phrase options Hne Hval Hhas.
    unfold generate, generateTokens.
    destruct (wordTransitions this) as [|kv w] eqn:Hw; [congruence|].
    cbn [Map_size List.length Nat.eqb]. rewrite Hval.
    unfold choose_start. simpl default. rewrite Hw, Hhas. reflexivity.
Qed.

Lemma start_phrase_matches_lower_case_only_witness :
  wordTransitions test_model <> []
  /\ validateOptions round_trip_options = Ok tt
  /\ Map_has (wordTransitions test_model) (Str.toLowerCase "Test") = true
  /\ Map_has (wordTransitions test_model) (Str.toLowerCase "This") = false
  /\ generate pow_1 zero_source test_model (JSString "This") round_trip_options
     = Some (Throw (ValidationError "Start phrase not found in training data")).
Proof.
  assert (H1 : wordTransitions test_model <> []) by (vm_compute; discriminate).
  assert (H2 : validateOptions round_trip_options = Ok tt)
    by (vm_compute; reflexivity).
  assert (H3 : Map_has (wordTransitions test_model) (Str.toLowerCase "This")
               = false) by (vm_compute; reflexivity).
  split; [exact H1|]. split; [exact H2|].
  split; [vm_compute; reflexivity|]. split; [exact H3|].
  exact (proj2 (proj2 (start_phrase_matches_lower_case_only pow_1 zero_source
                         test_model))
           "This" round_trip_options H1 H2 H3).
Defined.

(** ** Tokens are not empty *)

Lemma split_spaces_head_empty s :
  fst (Str.split_spaces s) = "" -> s = "" \/ Str.starts_with_space s = true.
Proof.
  destruct s as [|c s]; [auto|]. cbn [Str.split_spaces Str.starts_with_space].
  destruct (Str.split_spaces s) as [tok rest].
  destruct (Str.is_space c); [auto|]. simpl. discriminate.
Qed.

Lemma ends_with_space_cons c s :
  s <> "" -> ends_with_space (String c s) = ends_with_space s.
Proof. destruct s; [congruence|reflexivity]. Qed.

Lemma split_spaces_tail_empty s :
  In "" (snd (Str.split_spaces s)) -> ends_with_space s = true.
Proof.
  induction s as [|c s IH]; [intros []|].
  cbn [Str.split_spaces].
  pose proof (split_spaces_head_empty s) as Hhead.
  destruct (Str.split_spaces s) as [tok rest]. simpl in IH, Hhead.
  assert (Hrest : In "" rest -> ends_with_space (String c s) = true).
  { intros H. specialize (IH H). rewrite ends_with_space_cons; [exact IH|].
    intros ->. discriminate IH. }
  destruct (Str.is_space c) eqn:Hc; [|exact Hrest].
  destruct (Str.starts_with_space s) eqn:Hs; [exact Hrest|].
  simpl. intros [Htok|H]; [|exact (Hrest H)].
  destruct (Hhead Htok) as [->|Hs']; [exact Hc|congruence].
Qed.

Lemma trimEnd_no_trailing s : ends_with_space (Str.trimEnd s) = false.
Proof.
  induction s as [|c s IH]; [reflexivity|]. cbn [Str.trimEnd].
  destruct (Str.trimEnd s) as [|a t] eqn:E.
  - destruct (Str.is_space c) eqn:Hc; [reflexivity|exact Hc].
  - rewrite ends_with_space_cons by discriminate. exact IH.
Qed.

Lemma trimStart_head s :
  Str.all_chars Str.is_space s = false ->
  exists a r, Str.trimStart s = String a r /\ Str.is_space a = false.
Proof.
  induction s as [|c s IH]; [discriminate|]. simpl.
  destruct (Str.is_space c) eqn:Hc; simpl.
  - exact IH.
  - intros _. exists c, s. auto.
Qed.

Lemma trimEnd_keeps_head a r :
  Str.is_space a = false -> exists t, Str.trimEnd (String a r) = String a t.
Proof.
  intros Ha. cbn [Str.trimEnd].
  destruct (Str.trimEnd r); [rewrite Ha|]; eexists; reflexivity.
Qed.

Lemma split_ws_trim_nonempty s :
  Str.all_chars Str.is_space s = false ->
  Forall (fun tok => tok <> "") (Str.split_ws (Str.trim s)).
Proof.
  intros Hs. unfold Str.trim.
  destruct (trimStart_head s Hs) as (a & r & -> & Ha).
  destruct (trimEnd_keeps_head a r Ha) as [t Ht].
  pose proof (trimEnd_no_trailing (String a r)) as Hend.
  rewrite Ht in *. unfold Str.split_ws.
  pose proof (split_spaces_head_empty (String a t)) as Hhead.
  pose proof (split_spaces_tail_empty (String a t)) as Htail.
  destruct (Str.split_spaces (String a t)) as [tok rest]. simpl in *.
  constructor.
  - intros ->. destruct (Hhead eq_refl) as [H|H]; congruence.
  - apply Forall_forall. intros x Hx ->. specialize (Htail Hx). congruence.
Qed.

Lemma collapse_spaces_keeps inrun s :
  Str.all_chars Str.is_space (Str.collapse_spaces_from inrun s)
  = Str.all_chars Str.is_space s.
Proof.
  revert inrun. induction s as [|c s IH]; intros inrun; [reflexivity|].
  cbn [Str.collapse_spaces_from Str.all_chars].
  destruct (Str.is_space c) eqn:Hc.
  - destruct inrun; [apply IH|]. cbn [Str.all_chars]. rewrite IH. reflexivity.
  - cbn [Str.all_chars]. rewrite Hc. reflexivity.
Qed.

Lemma space_terminators_keeps skip s :
  Str.all_chars Str.is_space s = false ->
  Str.all_chars Str.is_space (Str.space_terminators_from skip s) = false.
Proof.
  revert skip. induction s as [|c s IH]; intros skip; [discriminate|].
  cbn [Str.space_terminators_from Str.all_chars].
  destruct (Str.is_terminator c) eqn:Ht.
  - intros _. cbn [Str.all_chars].
    rewrite (terminator_not_space c Ht). apply andb_false_r.
  - destruct (Str.is_space c) eqn:Hc.
    + simpl andb at 1. intros Hs. rewrite andb_true_r.
      destruct skip; cbn [Str.all_chars]; [|rewrite Hc]; apply IH; exact Hs.
    + intros _. rewrite andb_false_r. cbn [Str.all_chars]. rewrite Hc. reflexivity.
Qed.

Lemma trim_empty_spaces s :
  Str.is_empty (Str.trim s) = false -> Str.all_chars Str.is_space s = false.
Proof.
  intros H. destruct (Str.all_chars Str.is_space s) eqn:E; [|reflexivity].
  rewrite (trim_spaces s E) in H. discriminate H.
Qed.

Lemma preprocessText_clean this text tokens :
  preprocessText this text = Ok tokens -> Forall clean_token tokens.
Proof.
  intros Hp. pose proof (preprocessText_space_free _ _ _ Hp) as Hsf.
  unfold preprocessText in Hp. destruct text as [| | | |s|]; try discriminate.
  destruct (Str.is_empty (Str.trim s)) eqn:He; [discriminate|].
  destruct (_ <? _)%nat; [discriminate|]. injection Hp as <-.
  assert (Hne : Forall (fun tok => tok <> "") (tokenize s)).
  { unfold tokenize. apply split_ws_trim_nonempty.
    apply space_terminators_keeps.
    unfold Str.collapse_spaces. rewrite collapse_spaces_keeps.
    apply trim_empty_spaces. exact He. }
  rewrite Forall_forall in *. intros tok Hin. split; auto.
Qed.

(** X14: every token that [preprocessText] returns is a non-empty string
    without white space, no token carries a sentence terminator inside or
    after other characters, and there are at least [order + 1] of them. *)
Theorem preprocessText_tokens_are_words (this : EnhancedLLM) (text : value)
  (tokens : list string) :
  preprocessText this text = Ok tokens ->
  order this + 1 <= List.length tokens
  /\ forall tok, In tok tokens ->
       tok <> ""
       /\ Str.all_chars (fun c => negb (Str.is_space c)) tok = true
       /\ (Str.all_chars (fun c => negb (Str.is_terminator c)) tok = true
           \/ exists c, Str.is_terminator c = true /\ tok = String c "").
Proof.
  intros Hp. split; [exact (preprocessText_length _ _ _ Hp)|].
  intros tok Hin.
  pose proof (preprocessText_clean _ _ _ Hp) as Hc.
  rewrite Forall_forall in Hc. destruct (Hc tok Hin) as [Hne Hsf].
  split; [exact Hne|]. split; [exact Hsf|].
  assert (Hshape : token_shape tok = true).
  { unfold preprocessText in Hp. destruct text as [| | | |s|]; try discriminate.
    destruct (Str.is_empty _); [discriminate|].
    destruct (_ <? _)%nat; [discriminate|]. injection Hp as <-.
    pose proof (tokenize_shape s) as H. rewrite Forall_forall in H. auto. }
  unfold token_shape in Hshape. apply orb_prop in Hshape as [H|H].
  - destruct tok as [|c [|c' tok]]; try discriminate.
    destruct (Str.is_terminator c) eqn:Ht.
    + right. exists c. auto.
    + left. simpl. rewrite Ht. reflexivity.
  - left. exact H.
Qed.

Lemma preprocessText_tokens_are_words_witness :
  preprocessText (fresh 1) (JSString test_text)
  = Ok ["This"; "is"; "a"; "test"; "."]
  /\ order (fresh 1) + 1 <= List.length ["This"; "is"; "a"; "test"; "."].
Proof.
  assert (H : preprocessText (fresh 1) (JSString test_text)
              = Ok ["This"; "is"; "a"; "test"; "."]) by reflexivity.
  split; [exact H|].
  exact (proj1 (preprocessText_tokens_are_words (fresh 1) (JSString test_text) _ H)).
Defined.

(** ** The returned string and its tokens *)

Lemma clean_token_no_blank tok : clean_token tok -> no_blank tok = true.
Proof. intros [_ H]. apply space_free_no_blank. exact H. Qed.

Lemma getNGram_clean this tokens i :
  1 <= order this ->
  i + order this <= List.length tokens ->
  Forall clean_token tokens ->
  Forall clean_token (Str.split " " (getNGram this tokens i)).
Proof.
  intros Ho Hlen Hc. unfold getNGram.
  pose proof (slice_length tokens i (order this) Hlen) as Hl.
  pose proof (slice_Forall clean_token tokens i (order this) Hc) as Hs.
  rewrite split_join; [exact Hs| |].
  - intros E. rewrite E in Hl. simpl in Hl. lia.
  - revert Hs. apply Forall_impl. exact clean_token_no_blank.
Qed.

Lemma train_clean this text :
  1 <= order this -> clean this -> clean (fst (train this text)).
Proof.
  intros Ho Hclean. apply train_invariant with (Q := clean).
  - intros tokens Hp [Hk Hs Hn].
    pose proof (preprocessText_length _ _ _ Hp) as Hlen.
    pose proof (preprocessText_clean _ _ _ Hp) as Hc.
    constructor; simpl; auto.
    apply Set_add_Forall; [exact Hs|].
    apply getNGram_clean; [exact Ho|lia|exact Hc].
  - intros tokens i m x Hp [Hk Hs Hn] Hom Hlen Hx.
    pose proof (preprocessText_clean _ _ _ Hp) as Hc.
    constructor; simpl; auto.
    + apply Map_keys_set; [exact Hk|].
      apply getNGram_clean; [lia|lia|exact Hc].
    + apply (Map_set_Forall (fun t : Map Z => Forall clean_token (Map_keys t)));
        [exact Hn|].
      apply Map_keys_set.
      * apply (transitions_of_Forall (fun t => Forall clean_token (Map_keys t)));
          [constructor|exact Hn].
      * rewrite Forall_forall in Hc. apply Hc.
        exact (nth_error_In _ _ Hx).
  - auto.
  - exact Hclean.
Qed.

Lemma reachable_clean this : reachable this -> clean this.
Proof.
  induction 1 as [arg this Hc | o this Hr IH].
  - destruct (constructor_fresh _ _ Hc) as [E _]. rewrite E.
    constructor; simpl; constructor.
  - destruct o; simpl run; auto.
    apply train_clean; [|exact IH].
    exact (proj1 (wf_order _ (reachable_well_formed this Hr))).
Qed.

Lemma follows_clean this :
  clean this ->
  forall more toks, follows this toks more -> Forall clean_token more.
Proof.
  intros [_ _ Hn]. induction more as [|x more IH]; intros toks Hfol;
    [constructor|].
  destruct Hfol as [(transitions & Hg & Hin) Hfol].
  constructor; [|exact (IH _ Hfol)].
  pose proof (Map_get_Forall (fun t : Map Z => Forall clean_token (Map_keys t))
                _ _ _ Hn Hg) as Ht.
  rewrite Forall_forall in Ht. auto.
Qed.

Lemma choose_start_source random this startPhrase currentGram k :
  choose_start random this startPhrase = Ok (currentGram, k) ->
  In currentGram (Map_keys (wordTransitions this))
  \/ In currentGram (startSequences this).
Proof.
  unfold choose_start.
  destruct (default startPhrase JSNull) as [| |b|x|s|]; try discriminate.
  - unfold pick_start.
    destruct (Number.floor _) as [i|]; [|discriminate].
    destruct (i <? 0)%Z; [discriminate|].
    destruct (nth_error (startSequences this) (Z.to_nat i)) as [g|] eqn:E;
      [|discriminate].
    intros [= <- _]. right. exact (nth_error_In _ _ E).
  - destruct (Map_has (wordTransitions this) (Str.toLowerCase s)) eqn:E;
      [|discriminate].
    simpl. intros [= <- _]. left. apply Map_has_In. exact E.
Qed.

Lemma join_nonempty tok toks : tok <> "" -> Str.join " " (tok :: toks) <> "".
Proof.
  intros Hne. rewrite join_cons. destruct tok; [congruence|discriminate].
Qed.

(** X15: in every reachable model, the string that [generate] returns is
    not empty and splits at its spaces into exactly the generated tokens,
    each of them a non-empty word without white space; so the string has at
    least [order] and at most [max order maxLength] words. *)
Theorem generated_text_splits_into_its_tokens (approx : num -> num -> num)
  (random : nat -> num) (this : EnhancedLLM) (startPhrase : value)
  (options : GenerationOptions) (output : string) :
  reachable this ->
  generate approx random this startPhrase options = Some (Ok output) ->
  output <> ""
  /\ generateTokens approx random this startPhrase options
     = Some (Ok (Str.split " " output))
  /\ (forall tok, In tok (Str.split " " output) ->
                  tok <> ""
                  /\ Str.all_chars (fun c => negb (Str.is_space c)) tok = true)
  /\ order this <= List.length (Str.split " " output)
  /\ (Z.of_nat (List.length (Str.split " " output))
      <= Z.max (Z.of_nat (order this)) (int_of (opt_maxLength options)))%Z.
Proof.
  intros Hr Hgen. unfold generate in Hgen.
  destruct (generateTokens approx random this startPhrase options)
    as [[out|e]|] eqn:Htok; try discriminate.
  injection Hgen as <-.
  pose proof (reachable_well_formed this Hr) as Hwf.
  pose proof (reachable_clean this Hr) as Hclean.
  destruct (generateTokens_chain approx random this startPhrase options out
              Hwf Htok)
    as (currentGram & k & more & Hstart & Hout & Hfol & _).
  destruct (generateTokens_inv approx random _ _ _ _ Htok) as (Hne & Hval & _).
  destruct (generateTokens_bounds approx random this startPhrase options
              currentGram k Hwf Hne Hval Hstart)
    as (more' & Hrun & Hseed & Hbound).
  rewrite Htok in Hrun. injection Hrun as Hout'.
  assert (Hseedc : Forall clean_token (Str.split " " currentGram)).
  { destruct Hclean as [Hk Hs _]. rewrite Forall_forall in Hk, Hs.
    destruct (choose_start_source _ _ _ _ _ Hstart); auto. }
  assert (Hall : Forall clean_token out).
  { rewrite Hout. apply Forall_app. split; [exact Hseedc|].
    exact (follows_clean this Hclean more _ Hfol). }
  assert (Hnil : out <> []).
  { rewrite Hout. unfold Str.split.
    destruct (Str.split_at " " currentGram). discriminate. }
  assert (Hback : Str.split " " (Str.join " " out) = out).
  { apply split_join; [exact Hnil|].
    revert Hall. apply Forall_impl. exact clean_token_no_blank. }
  rewrite Hback. split; [|split; [reflexivity|split; [|split]]].
  - destruct out as [|tok out]; [congruence|].
    apply join_nonempty. inversion Hall as [|? ? [Ht _] _]; subst. exact Ht.
  - intros tok Hin. rewrite Forall_forall in Hall. exact (Hall tok Hin).
  - rewrite Hout', length_app. lia.
  - rewrite Hout'. exact Hbound.
Qed.

Lemma generated_text_splits_into_its_tokens_witness :
  reachable test_model
  /\ generate pow_1 zero_source test_model JSNull no_options
     = Some (Ok "This is a test .")
  /\ "This is a test ." <> ""
  /\ generateTokens pow_1 zero_source test_model JSNull no_options
     = Some (Ok (Str.split " " "This is a test .")).
Proof.
  assert (H : reachable test_model).
  { unfold test_model. apply reach_run.
    apply (reach_new JSUndefined (fresh 1)). reflexivity. }
  assert (Hg : generate pow_1 zero_source test_model JSNull no_options
               = Some (Ok "This is a test .")) by (vm_compute; reflexivity).
  split; [exact H|]. split; [exact Hg|].
  destruct (generated_text_splits_into_its_tokens pow_1 zero_source test_model
              JSNull no_options _ H Hg) as (H1 & H2 & _).
  split; [exact H1|exact H2].
Defined.

(** ** Training again on the same text *)

Lemma Set_add_same s x : In x s -> Set_add s x = s.
Proof. intros H. unfold Set_add. apply Set_has_In in H. rewrite H. reflexivity. Qed.

Lemma Map_set_same_keys (t : Map Z) x c :
  In x (Map_keys t) -> Map_keys (Map_set t x c) = Map_keys t.
Proof.
  intros H. rewrite Map_keys_set_eq. apply Map_has_In in H. rewrite H. reflexivity.
Qed.

Lemma Map_set_same_shape (w : Map (Map Z)) g t t' :
  Map_get w g = Some t -> Map_keys t' = Map_keys t ->
  List.map (fun kv : string * Map Z => (fst kv, Map_keys (snd kv))) (Map_set w g t')
  = List.map (fun kv : string * Map Z => (fst kv, Map_keys (snd kv))) w.
Proof.
  intros Hg Hk. induction w as [|[g0 t0] w IH]; simpl in *; [discriminate|].
  destruct (g0 =? g)%string eqn:E; simpl.
  - apply String.eqb_eq in E. subst g0. injection Hg as ->.
    rewrite Hk. reflexivity.
  - rewrite (IH Hg). reflexivity.
Qed.

Lemma record_transition_same_shape this gram x t :
  Map_get (wordTransitions this) gram = Some t ->
  In x (Map_keys t) ->
  (Str.ends_with_terminator x = true -> In gram (endSequences this)) ->
  shape (record_transition this gram x) = shape this.
Proof.
  intros Hg Hx He. unfold shape. simpl.
  unfold transitions_of. rewrite Hg.
  rewrite (Map_set_same_shape _ gram t _ Hg (Map_set_same_keys t x _ Hx)).
  destruct (Str.ends_with_terminator x); [|reflexivity].
  rewrite (Set_add_same _ _ (He eq_refl)). reflexivity.
Qed.

Lemma record_transition_absorbs this gram x :
  (exists t, Map_get (wordTransitions (record_transition this gram x)) gram = Some t
             /\ In x (Map_keys t))
  /\ (Str.ends_with_terminator x = true ->
      In gram (endSequences (record_transition this gram x))).
Proof.
  split.
  - simpl. rewrite Map_get_set_same. eexists. split; [reflexivity|].
    apply Map_has_In. unfold Map_has. rewrite Map_get_set_same. reflexivity.
  - simpl. intros ->. apply Set_add_In. right. reflexivity.
Qed.

Lemma absorbed_extends tokens a b i n :
  order b = order a -> extends a b ->
  absorbed tokens a i n -> absorbed tokens b i n.
Proof.
  intros Ho (_ & He & Hk) Ha j x Hj Hx.
  unfold getNGram. rewrite Ho in *.
  destruct (Ha j x Hj Hx) as [(t & Hg & Hin) Hend].
  unfold getNGram in *. split.
  - destruct (Hk _ _ Hg) as (t' & Hg' & Hincl). exists t'. split; [exact Hg'|].
    apply Hincl. exact Hin.
  - intros Ht. apply He. exact (Hend Ht).
Qed.

Lemma train_loop_extends tokens :
  forall n i this,
    i + n + order this <= List.length tokens ->
    exists this',
      train_loop tokens n i this = (this', Ok tt)
      /\ order this' = order this /\ extends this this'.
Proof.
  intros n i this Hlen.
  apply (train_loop_ind (extends this) tokens (order this)); auto.
  - intros j m x Hm _ _.
    eapply extends_trans; [exact Hm|apply record_transition_extends].
  - apply extends_refl.
Qed.

Lemma train_loop_absorbs tokens :
  forall n i this,
    i + n + order this <= List.length tokens ->
    exists this',
      train_loop tokens n i this = (this', Ok tt)
      /\ order this' = order this
      /\ startSequences this' = startSequences this
      /\ absorbed tokens this' i n.
Proof.
  induction n as [|n IH]; intros i this Hlen.
  - exists this. split; [reflexivity|]. split; [reflexivity|].
    split; [reflexivity|]. intros j x Hj. lia.
  - cbn [train_loop].
    destruct (nth_error_in_range tokens (i + order this)) as [x Hx]; [lia|].
    rewrite (train_step_ok _ _ _ _ Hx).
    set (m1 := record_transition this (getNGram this tokens i) x).
    destruct (IH (S i) m1) as (this' & Hrun & Ho & Hs & Habs); [simpl; lia|].
    destruct (train_loop_extends tokens n (S i) m1) as (m2 & Hrun2 & _ & Hext);
      [simpl; lia|].
    rewrite Hrun in Hrun2. injection Hrun2 as <-.
    exists this'. split; [exact Hrun|]. split; [exact Ho|]. split; [exact Hs|].
    intros j y Hj Hy. destruct (Nat.eq_dec j i) as [->|Hne].
    + assert (Hone : absorbed tokens m1 i 1).
      { intros j' y' Hj' Hy'. assert (j' = i) by lia. subst j'.
        simpl in Hy'. rewrite Hx in Hy'. injection Hy' as <-.
        exact (record_transition_absorbs this (getNGram this tokens i) x). }
      apply (absorbed_extends tokens m1 this' i 1 Ho Hext Hone); [lia|exact Hy].
    + apply Habs; [lia|exact Hy].
Qed.

Lemma train_loop_same_shape tokens :
  forall n i this,
    i + n + order this <= List.length tokens ->
    absorbed tokens this i n ->
    exists this',
      train_loop tokens n i this = (this', Ok tt)
      /\ shape this' = shape this.
Proof.
  induction n as [|n IH]; intros i this Hlen Habs.
  - exists this. auto.
  - cbn [train_loop].
    destruct (nth_error_in_range tokens (i + order this)) as [x Hx]; [lia|].
    rewrite (train_step_ok _ _ _ _ Hx).
    destruct (Habs i x ltac:(lia) Hx) as [(t & Hg & Hin) Hend].
    pose proof (record_transition_same_shape this _ x t Hg Hin Hend) as Hshape.
    destruct (IH (S i) (record_transition this (getNGram this tokens i) x))
      as (this' & Hrun & Hs).
    + simpl. lia.
    + apply (absorbed_extends tokens this); [reflexivity| |].
      * apply record_transition_extends.
      * intros j y Hj. apply Habs. lia.
    + exists this'. split; [exact Hrun|]. rewrite Hs. exact Hshape.
Qed.

Lemma train_again_same_shape this text tokens :
  preprocessText this text = Ok tokens ->
  shape (fst (train (fst (train this text)) text)) = shape (fst (train this text)).
Proof.
  intros Hp. pose proof (preprocessText_length _ _ _ Hp) as Hlen.
  rewrite (train_unfold _ _ _ Hp).
  destruct (train_loop_absorbs tokens (List.length tokens - order this) 0
              (train_header this tokens))
    as (m1 & Hrun & Ho & Hs & Habs); [simpl; lia|].
  rewrite Hrun. cbn [fst]. simpl in Ho, Hs.
  assert (Hp1 : preprocessText m1 text = Ok tokens).
  { rewrite (preprocessText_order this m1 text Ho). exact Hp. }
  rewrite (train_unfold _ _ _ Hp1).
  assert (Hstart : In (getNGram m1 tokens 0) (startSequences m1)).
  { rewrite Hs. apply Set_add_In. right. unfold getNGram. rewrite Ho. reflexivity. }
  assert (Hhead : shape (train_header m1 tokens) = shape m1).
  { unfold shape, train_header. simpl.
    rewrite (Set_add_same _ _ Hstart). reflexivity. }
  destruct (train_loop_same_shape tokens (List.length tokens - order m1) 0
              (train_header m1 tokens)) as (m2 & Hrun2 & Hshape).
  - simpl. lia.
  - rewrite Ho. intros j x Hj Hx. simpl in Hx.
    exact (Habs j x Hj Hx).
  - rewrite Hrun2. cbn [fst]. rewrite Hshape. exact Hhead.
Qed.

Lemma sizes_from_shape (a b : EnhancedLLM) :
  shape a = shape b ->
  vocabularySize (getStats a) = vocabularySize (getStats b)
  /\ stats_startSequences (getStats a) = stats_startSequences (getStats b)
  /\ stats_endSequences (getStats a) = stats_endSequences (getStats b)
  /\ averageTransitionsPerState (getStats a)
     = averageTransitionsPerState (getStats b).
Proof.
  unfold shape. intros [= Hw Hs He].
  assert (Hlen : Map_size (wordTransitions a) = Map_size (wordTransitions b)).
  { unfold Map_size.
    rewrite <- (length_map (fun kv : string * Map Z => (fst kv, Map_keys (snd kv)))
                  (wordTransitions a)), Hw, length_map. reflexivity. }
  assert (Hsum : forall (w : Map (Map Z)) z,
             fold_left (fun sum t => (sum + Z.of_nat (Map_size t))%Z)
               (Map_values w) z
             = fold_left (fun sum (e : string * list string) =>
                            (sum + Z.of_nat (List.length (snd e)))%Z)
                 (List.map (fun kv : string * Map Z => (fst kv, Map_keys (snd kv))) w)
                 z).
  { induction w as [|[g t] w IH]; intros z; [reflexivity|].
    simpl. rewrite IH. unfold Map_size, Map_keys. rewrite length_map. reflexivity. }
  cbn [getStats vocabularySize stats_startSequences stats_endSequences
       averageTransitionsPerState].
  unfold Set_size. rewrite Hs, He, Hlen, !Hsum, Hw. auto.
Qed.

(** X16: training a second time on a text that was accepted adds no key, no
    successor and no start or end sequence, in contrast to the counts: the
    table keeps its keys and their successors in the same order, the two
    sets are the same, and [getStats] reports the same [vocabularySize],
    [startSequences], [endSequences] and [averageTransitionsPerState]. *)
Theorem retraining_adds_no_key (this : EnhancedLLM) (text : value)
  (tokens : list string) :
  preprocessText this text = Ok tokens ->
  let once := fst (train this text) in
  let twice := fst (train once text) in
  startSequences twice = startSequences once
  /\ endSequences twice = endSequences once
  /\ Map_keys (wordTransitions twice) = Map_keys (wordTransitions once)
  /\ List.map (fun kv : string * Map Z => Map_keys (snd kv)) (wordTransitions twice)
     = List.map (fun kv : string * Map Z => Map_keys (snd kv)) (wordTransitions once)
  /\ vocabularySize (getStats twice) = vocabularySize (getStats once)
  /\ stats_startSequences (getStats twice) = stats_startSequences (getStats once)
  /\ stats_endSequences (getStats twice) = stats_endSequences (getStats once)
  /\ averageTransitionsPerState (getStats twice)
     = averageTransitionsPerState (getStats once).
Proof.
  intros Hp. cbv zeta.
  pose proof (train_again_same_shape this text tokens Hp) as Hshape.
  destruct (sizes_from_shape _ _ Hshape) as (H1 & H2 & H3 & H4).
  unfold shape in Hshape. injection Hshape as Hw Hs He.
  split; [exact Hs|]. split; [exact He|].
  split.
  { unfold Map_keys.
    apply (f_equal (List.map fst)) in Hw. rewrite !map_map in Hw. exact Hw. }
  split.
  { apply (f_equal (List.map snd)) in Hw. rewrite !map_map in Hw. exact Hw. }
  auto.
Qed.

Lemma retraining_adds_no_key_witness :
  preprocessText (fresh 1) (JSString test_text)
  = Ok ["This"; "is"; "a"; "test"; "."]
  /\ startSequences (fst (train (fst (train (fresh 1) (JSString test_text)))
                            (JSString test_text)))
     = startSequences (fst (train (fresh 1) (JSString test_text))).
Proof.
  assert (H : preprocessText (fresh 1) (JSString test_text)
              = Ok ["This"; "is"; "a"; "test"; "."]) by reflexivity.
  split; [exact H|].
  exact (proj1 (retraining_adds_no_key (fresh 1) (JSString test_text) _ H)).
Defined.

(** ** N-gram keys *)

(** X17: for the tokens that [preprocessText] returns and an order of at
    least 1, an n-gram key decodes to its tokens: splitting
    [getNGram(tokens, i)] at the spaces gives back the [order] tokens from
    index [i].  Two positions have the same key only if they hold the same
    tokens, so joining with a space merges no two n-grams. *)
Theorem ngram_key_decodes (this : EnhancedLLM) (text : value)
  (tokens : list string) :
  preprocessText this text = Ok tokens ->
  1 <= order this ->
  (forall i, i + order this <= List.length tokens ->
             Str.split " " (getNGram this tokens i) = slice tokens i (order this)
             /\ List.length (slice tokens i (order this)) = order this)
  /\ (forall i j,
        i + order this <= List.length tokens ->
        j + order this <= List.length tokens ->
        getNGram this tokens i = getNGram this tokens j ->
        slice tokens i (order this) = slice tokens j (order this)).
Proof.
  intros Hp Ho.
  pose proof (preprocessText_clean _ _ _ Hp) as Hc.
  assert (H : forall i, i + order this <= List.length tokens ->
                        Str.split " " (getNGram this tokens i)
                        = slice tokens i (order this)
                        /\ List.length (slice tokens i (order this)) = order this).
  { intros i Hi. pose proof (slice_length tokens i (order this) Hi) as Hl.
    split; [|exact Hl]. unfold getNGram. apply split_join.
    - intros E. rewrite E in Hl. simpl in Hl. lia.
    - apply slice_Forall. revert Hc. apply Forall_impl.
      exact clean_token_no_blank. }
  split; [exact H|].
  intros i j Hi Hj E.
  rewrite <- (proj1 (H i Hi)), <- (proj1 (H j Hj)), E. reflexivity.
Qed.

Lemma ngram_key_decodes_witness :
  preprocessText (fresh 2) (JSString fox_text) = Ok (tokenize fox_text)
  /\ 1 <= order (fresh 2)
  /\ Str.split " " (getNGram (fresh 2) (tokenize fox_text) 3)
     = slice (tokenize fox_text) 3 2.
Proof.
  assert (H : preprocessText (fresh 2) (JSString fox_text) = Ok (tokenize fox_text))
    by (vm_compute; reflexivity).
  assert (Ho : 1 <= order (fresh 2)) by (simpl; lia).
  split; [exact H|]. split; [exact Ho|].
  assert (Hi : 3 + order (fresh 2) <= List.length (tokenize fox_text))
    by (vm_compute; lia).
  exact (proj1 (proj1 (ngram_key_decodes (fresh 2) (JSString fox_text) _ H Ho)
                  3 Hi)).
Defined.

(** ** What [train] records *)

Lemma occurrences_filter this tokens g x :
  forall n i,
    occurrences (order this) tokens n i g x
    = Z.of_nat (List.length (filter (transition_at this tokens g x) (seq i n))).
Proof.
  induction n as [|n IH]; intros i; [reflexivity|].
  cbn [occurrences seq filter]. rewrite IH.
  unfold transition_at at 2, getNGram.
  rewrite nth_skipn, (Nat.add_comm (order this) i).
  destruct (_ && _)%bool; simpl List.length; lia.
Qed.

(** X18: a [train] call that accepts its text adds to the count of every
    pair of an n-gram [g] and a token [x] the number of positions of the
    token sequence where [g] is followed by [x], and nothing else; a pair
    that does not occur keeps its count. *)
Theorem train_counts_occurrences (this : EnhancedLLM) (text : value)
  (tokens : list string) :
  preprocessText this text = Ok tokens ->
  forall g x,
    count (fst (train this text)) g x
    = (count this g x
       + Z.of_nat (List.length
                     (filter (transition_at this tokens g x)
                        (positions this tokens))))%Z.
Proof.
  intros Hp g x.
  destruct (train_ok this text tokens Hp) as (this' & Hrun & _ & _ & Hc).
  rewrite Hrun. cbn [fst]. rewrite Hc, occurrences_filter. reflexivity.
Qed.

Lemma train_counts_occurrences_witness :
  preprocessText (fresh 2) (JSString fox_text) = Ok (tokenize fox_text)
  /\ count (fst (train (fresh 2) (JSString fox_text))) ". The" "fox" = 1%Z.
Proof.
  assert (H : preprocessText (fresh 2) (JSString fox_text) = Ok (tokenize fox_text))
    by (vm_compute; reflexivity).
  split; [exact H|].
  rewrite (train_counts_occurrences (fresh 2) (JSString fox_text) _ H ". The" "fox").
  vm_compute. reflexivity.
Defined.

Lemma Map_keys_set_In {V : Type} (m : Map V) k v g :
  In g (Map_keys (Map_set m k v)) -> In g (Map_keys m) \/ g = k.
Proof.
  rewrite Map_keys_set_eq. destruct (Map_has m k); [auto|].
  rewrite in_app_iff. simpl. intros [H|[H|[]]]; auto.
Qed.

Lemma train_loop_keys tokens :
  forall n i this,
    i + n + order this <= List.length tokens ->
    exists this',
      train_loop tokens n i this = (this', Ok tt)
      /\ forall g,
          In g (Map_keys (wordTransitions this')) ->
          In g (Map_keys (wordTransitions this))
          \/ exists j, i <= j < i + n /\ g = getNGram this tokens j.
Proof.
  induction n as [|n IH]; intros i this Hlen.
  - exists this. split; [reflexivity|]. auto.
  - cbn [train_loop].
    destruct (nth_error_in_range tokens (i + order this)) as [x Hx]; [lia|].
    rewrite (train_step_ok _ _ _ _ Hx).
    destruct (IH (S i) (record_transition this (getNGram this tokens i) x))
      as (this' & Hrun & Hkeys); [simpl; lia|].
    exists this'. split; [exact Hrun|].
    intros g Hg. destruct (Hkeys g Hg) as [Hin | (j & Hj & ->)].
    + simpl in Hin. apply Map_keys_set_In in Hin as [Hin| ->]; [left; exact Hin|].
      right. exists i. split; [lia|reflexivity].
    + right. exists j. split; [lia|reflexivity].
Qed.

(** X19: what a [train] call that accepts its text adds to the sets and to
    the keys, exactly: to [startSequences] the first n-gram of the call and
    nothing else; to [endSequences] the n-grams that are followed by a token
    ending in a sentence terminator; to the keys of the table the n-grams at
    the positions 0 to [tokens.length - order - 1], which leaves out the
    n-gram at the very end of the text, the one without a successor. *)
Theorem train_adds_exactly (this : EnhancedLLM) (text : value)
  (tokens : list string) :
  preprocessText this text = Ok tokens ->
  let after := fst (train this text) in
  (forall g, In g (startSequences after)
             <-> In g (startSequences this) \/ g = getNGram this tokens 0)
  /\ (forall g, In g (endSequences after)
                <-> In g (endSequences this)
                    \/ exists i x,
                        In i (positions this tokens)
                        /\ nth_error tokens (i + order this) = Some x
                        /\ Str.ends_with_terminator x = true
                        /\ g = getNGram this tokens i)
  /\ (forall g, In g (Map_keys (wordTransitions after))
                <-> In g (Map_keys (wordTransitions this))
                    \/ exists i, In i (positions this tokens)
                                 /\ g = getNGram this tokens i).
Proof.
  intros Hp. cbv zeta.
  pose proof (preprocessText_length _ _ _ Hp) as Hlen.
  pose proof (train_extends this text) as (_ & Hext_e & Hext_k).
  rewrite (train_unfold _ _ _ Hp) in *.
  set (n := List.length tokens - order this) in *.
  assert (Hrange : 0 + n + order (train_header this tokens) <= List.length tokens)
    by (simpl; lia).
  destruct (train_loop_absorbs tokens n 0 (train_header this tokens) Hrange)
    as (m & Hrun & Ho & Hs & Habs).
  destruct (train_loop_ends tokens n 0 (train_header this tokens) Hrange)
    as (m1 & Hrun1 & Hends).
  destruct (train_loop_keys tokens n 0 (train_header this tokens) Hrange)
    as (m2 & Hrun2 & Hkeys).
  rewrite Hrun in Hrun1, Hrun2. injection Hrun1 as <-. injection Hrun2 as <-.
  rewrite Hrun in *. cbn [fst] in *. simpl in Ho.
  assert (Hpos : forall i, In i (positions this tokens) <-> 0 <= i < 0 + n).
  { intros i. unfold positions. rewrite in_seq. fold n. lia. }
  assert (Hgram : forall i, getNGram m tokens i = getNGram this tokens i).
  { intros i. unfold getNGram. rewrite Ho. reflexivity. }
  split; [|split].
  - intros g. rewrite Hs. simpl. apply Set_add_In.
  - intros g. split.
    + intros Hg. destruct (Hends g Hg) as [Hin | (j & x & Hj & Hx & Ht & ->)].
      * left. exact Hin.
      * right. exists j, x. rewrite Hpos. simpl in Hx. auto.
    + intros [Hin | (i & x & Hi & Hx & Ht & ->)].
      * apply Hext_e. exact Hin.
      * apply Hpos in Hi. rewrite <- Ho in Hx.
        destruct (Habs i x Hi Hx) as [_ He]. rewrite <- Hgram. exact (He Ht).
  - intros g. split.
    + intros Hg. destruct (Hkeys g Hg) as [Hin | (j & Hj & ->)].
      * left. exact Hin.
      * right. exists j. rewrite Hpos. auto.
    + intros [Hin | (i & Hi & ->)].
      * apply Map_has_In in Hin. unfold Map_has in Hin.
        destruct (Map_get (wordTransitions this) g) as [t|] eqn:E; [|discriminate].
        destruct (Hext_k g t E) as (t' & Hg' & _).
        apply Map_has_In. unfold Map_has. rewrite Hg'. reflexivity.
      * apply Hpos in Hi.
        destruct (nth_error_in_range tokens (i + order m)) as [x Hx]; [lia|].
        destruct (Habs i x Hi Hx) as [(t & Hg & _) _].
        rewrite <- Hgram. apply Map_has_In. unfold Map_has. rewrite Hg. reflexivity.
Qed.

Lemma train_adds_exactly_witness :
  preprocessText (fresh 1) (JSString test_text)
  = Ok ["This"; "is"; "a"; "test"; "."]
  /\ forall g,
      In g (startSequences (fst (train (fresh 1) (JSString test_text))))
      <-> In g (startSequences (fresh 1))
          \/ g = getNGram (fresh 1) ["This"; "is"; "a"; "test"; "."] 0.
Proof.
  assert (H : preprocessText (fresh 1) (JSString test_text)
              = Ok ["This"; "is"; "a"; "test"; "."]) by reflexivity.
  split; [exact H|].
  exact (proj1 (train_adds_exactly (fresh 1) (JSString test_text) _ H)).
Defined.

(** ** The tokenizer, character by character *)

Lemma nonempty_only_cons tok l :
  nonempty_only (tok :: l) = push tok (nonempty_only l).
Proof. unfold nonempty_only, push. simpl. destruct (Str.is_empty tok); reflexivity. Qed.

Lemma push_app tok a b : (push tok (a ++ b) = push tok a ++ b)%list.
Proof. unfold push. destruct (Str.is_empty tok); reflexivity. Qed.

Lemma nonempty_only_id l :
  Forall (fun tok => tok <> "") l -> nonempty_only l = l.
Proof.
  induction 1 as [|tok l Ht _ IH]; [reflexivity|].
  rewrite nonempty_only_cons, IH. unfold push.
  destruct tok; [congruence|reflexivity].
Qed.

Lemma nonempty_only_split_ws s :
  nonempty_only (Str.split_ws s)
  = push (fst (Str.split_spaces s)) (nonempty_only (snd (Str.split_spaces s))).
Proof.
  unfold Str.split_ws. destruct (Str.split_spaces s) as [tok rest].
  apply nonempty_only_cons.
Qed.

(** The tokens between the white space of a text whose terminators have
    been spaced are its words and marks. *)
Lemma split_spaced_pieces s :
  (fst (Str.split_spaces (Str.space_terminators_from false s)) = fst (pieces s)
   /\ nonempty_only (snd (Str.split_spaces (Str.space_terminators_from false s)))
      = snd (pieces s))
  /\ nonempty_only (Str.split_ws (Str.space_terminators_from true s))
     = words_and_marks s.
Proof.
  induction s as [|c s [[IHf IHs] IHt]].
  - split; [split|]; reflexivity.
  - assert (P : fst (Str.split_spaces (Str.space_terminators_from false (String c s)))
                = fst (pieces (String c s))
                /\ nonempty_only
                     (snd (Str.split_spaces
                             (Str.space_terminators_from false (String c s))))
                   = snd (pieces (String c s))).
    { cbn [Str.space_terminators_from pieces andb].
      destruct (Str.is_terminator c) eqn:Ht.
      - pose proof (terminator_not_space c Ht) as Hs. rewrite Hs.
        rewrite nonempty_only_split_ws in IHt.
        set (Y := Str.space_terminators_from true s) in *.
        pose proof (split_spaces_leading Y) as Hlead.
        cbn [Str.split_spaces Str.starts_with_space].
        change (Str.is_space " ") with true. cbn iota. rewrite Hs.
        unfold words_and_marks in IHt.
        destruct (Str.split_spaces Y) as [tokY restY].
        destruct (pieces s) as [tok rest].
        cbn [fst snd] in IHt, Hlead.
        destruct (Str.starts_with_space Y); cbn [fst snd].
        + rewrite (Hlead eq_refl) in *. split; [reflexivity|].
          rewrite nonempty_only_cons.
          change (push "" (nonempty_only restY)) with (nonempty_only restY) in IHt.
          rewrite IHt. reflexivity.
        + split; [reflexivity|].
          rewrite nonempty_only_cons, nonempty_only_cons, IHt. reflexivity.
      - set (X := Str.space_terminators_from false s) in *.
        pose proof (split_spaces_leading X) as Hlead.
        cbn [Str.split_spaces].
        destruct (Str.split_spaces X) as [tokX restX].
        destruct (pieces s) as [tok rest]. simpl in IHf, IHs, Hlead.
        subst tok rest.
        destruct (Str.is_space c) eqn:Hc.
        + destruct (Str.starts_with_space X); simpl.
          * rewrite (Hlead eq_refl). split; reflexivity.
          * split; [reflexivity|]. apply nonempty_only_cons.
        + simpl. split; reflexivity. }
    split; [exact P|].
    destruct P as [Pf Ps].
    assert (Pw : nonempty_only
                   (Str.split_ws (Str.space_terminators_from false (String c s)))
                 = words_and_marks (String c s)).
    { rewrite nonempty_only_split_ws, Pf, Ps. unfold words_and_marks.
      destruct (pieces (String c s)). reflexivity. }
    destruct (Str.is_terminator c) eqn:Ht.
    + cbn [Str.space_terminators_from] in *. rewrite Ht in *. exact Pw.
    + destruct (Str.is_space c) eqn:Hc.
      * cbn [Str.space_terminators_from]. rewrite Ht, Hc. cbn [andb].
        rewrite IHt. unfold words_and_marks. cbn [pieces]. rewrite Hc.
        destruct (pieces s) as [tok rest]. reflexivity.
      * cbn [Str.space_terminators_from] in *. rewrite Ht, Hc in *.
        cbn [andb] in *. exact Pw.
Qed.

Lemma collapse_spaces_pieces s :
  pieces (Str.collapse_spaces_from false s) = pieces s
  /\ words_and_marks (Str.collapse_spaces_from true s) = words_and_marks s.
Proof.
  induction s as [|c s [IHf IHt]]; [split; reflexivity|].
  assert (A : pieces (Str.collapse_spaces_from false (String c s))
              = pieces (String c s)).
  { cbn [Str.collapse_spaces_from]. destruct (Str.is_space c) eqn:Hc.
    - cbn [pieces]. change (Str.is_space " ") with true. cbn iota. rewrite Hc.
      unfold words_and_marks in IHt.
      destruct (pieces (Str.collapse_spaces_from true s)) as [t r].
      destruct (pieces s) as [t' r']. rewrite IHt. reflexivity.
    - cbn [pieces]. rewrite Hc, IHf. reflexivity. }
  split; [exact A|].
  cbn [Str.collapse_spaces_from]. destruct (Str.is_space c) eqn:Hc.
  - rewrite IHt. unfold words_and_marks. cbn [pieces]. rewrite Hc.
    destruct (pieces s) as [t r]. reflexivity.
  - cbn [Str.collapse_spaces_from] in A. rewrite Hc in A.
    unfold words_and_marks. rewrite A. reflexivity.
Qed.

Lemma split_spaces_trimEnd_nonempty s :
  fst (Str.split_spaces (Str.trimEnd s)) = fst (Str.split_spaces s)
  /\ nonempty_only (snd (Str.split_spaces (Str.trimEnd s)))
     = nonempty_only (snd (Str.split_spaces s)).
Proof.
  induction s as [|c s IH]; [split; reflexivity|].
  cbn [Str.trimEnd].
  destruct (Str.trimEnd s) as [|a t] eqn:Et.
  - cbn [Str.split_spaces] in *.
    destruct (Str.split_spaces s) as [tok rest] eqn:E. simpl in IH.
    destruct IH as [IH1 IH2]. subst tok.
    destruct (Str.is_space c) eqn:Hc.
    + simpl. destruct (Str.starts_with_space s); simpl; split; auto.
    + simpl. rewrite Hc. simpl. split; auto.
  - destruct (trimEnd_head s a t Et) as [r ->].
    assert (Es : Str.starts_with_space (String a t)
                 = Str.starts_with_space (String a r)) by reflexivity.
    remember (String a t) as u eqn:Eu.
    remember (String a r) as w eqn:Ew.
    cbn [Str.split_spaces]. rewrite Es.
    destruct (Str.split_spaces u) as [tokT restT].
    destruct (Str.split_spaces w) as [tokS restS].
    simpl in IH. destruct IH as [IH1 IH2]. subst tokT.
    destruct (Str.is_space c); [destruct (Str.starts_with_space w)|];
      cbn [fst snd]; split; auto.
    rewrite !nonempty_only_cons, IH2. reflexivity.
Qed.

Lemma split_ws_trimEnd_nonempty s :
  nonempty_only (Str.split_ws (Str.trimEnd s)) = nonempty_only (Str.split_ws s).
Proof.
  rewrite !nonempty_only_split_ws.
  destruct (split_spaces_trimEnd_nonempty s) as [-> ->]. reflexivity.
Qed.

Lemma split_ws_trimStart_nonempty s :
  nonempty_only (Str.split_ws (Str.trimStart s)) = nonempty_only (Str.split_ws s).
Proof.
  induction s as [|c s IH]; [reflexivity|].
  cbn [Str.trimStart]. destruct (Str.is_space c) eqn:Hc; [|reflexivity].
  rewrite IH. unfold Str.split_ws. cbn [Str.split_spaces]. rewrite Hc.
  pose proof (split_spaces_leading s) as Hlead.
  destruct (Str.split_spaces s) as [tok rest]. simpl in Hlead.
  destruct (Str.starts_with_space s); [reflexivity|].
  rewrite (nonempty_only_cons ""). reflexivity.
Qed.

Lemma tokenize_words_and_marks text :
  Str.all_chars Str.is_space text = false ->
  tokenize text = words_and_marks text.
Proof.
  intros Hne. unfold tokenize.
  set (X := Str.space_terminators (Str.collapse_spaces text)).
  assert (HX : Str.all_chars Str.is_space X = false).
  { apply space_terminators_keeps. unfold Str.collapse_spaces.
    rewrite collapse_spaces_keeps. exact Hne. }
  rewrite <- (nonempty_only_id _ (split_ws_trim_nonempty X HX)).
  unfold Str.trim. rewrite split_ws_trimEnd_nonempty, split_ws_trimStart_nonempty.
  unfold X, Str.space_terminators, Str.collapse_spaces.
  rewrite nonempty_only_split_ws.
  destruct (split_spaced_pieces (Str.collapse_spaces_from false text))
    as [[-> ->] _].
  rewrite (proj1 (collapse_spaces_pieces text)).
  unfold words_and_marks. destruct (pieces text). reflexivity.
Qed.

Lemma pieces_mark p c q :
  Str.is_terminator c = true ->
  pieces (p ++ String c q)
  = (fst (pieces p),
     (snd (pieces p) ++ String c "" :: words_and_marks q)%list).
Proof.
  intros Ht. pose proof (terminator_not_space c Ht) as Hs.
  induction p as [|a p IH].
  - simpl. rewrite Hs, Ht. unfold words_and_marks.
    destruct (pieces q). reflexivity.
  - change (String a p ++ String c q) with (String a (p ++ String c q)).
    cbn [pieces]. rewrite IH. destruct (pieces p) as [tok rest]. cbn [fst snd].
    destruct (Str.is_space a); [|destruct (Str.is_terminator a)]; cbn [fst snd];
      rewrite ?push_app; reflexivity.
Qed.

Lemma pieces_boundary p s :
  p <> "" -> ends_at_boundary p = true ->
  pieces (p ++ s)
  = (fst (pieces p), (snd (pieces p) ++ words_and_marks s)%list).
Proof.
  induction p as [|a p IH]; [congruence|]. intros _ Hb.
  change (String a p ++ s) with (String a (p ++ s)).
  destruct p as [|b p].
  - simpl in Hb. simpl append. cbn [pieces]. unfold words_and_marks.
    destruct (pieces s) as [tok rest].
    destruct (Str.is_space a); [reflexivity|].
    simpl in Hb. rewrite Hb. reflexivity.
  - assert (Hb' : ends_at_boundary (String b p) = true) by exact Hb.
    remember (String b p) as u eqn:Eu.
    assert (Hu : u <> "") by (subst u; discriminate).
    cbn [pieces]. rewrite (IH Hu Hb').
    destruct (pieces u) as [tok rest]. cbn [fst snd].
    destruct (Str.is_space a); [|destruct (Str.is_terminator a)]; cbn [fst snd];
      rewrite ?push_app; reflexivity.
Qed.

Lemma pieces_word w s :
  space_free w = true -> terminator_free w = true ->
  pieces (w ++ s) = (w ++ fst (pieces s), snd (pieces s)).
Proof.
  unfold space_free, terminator_free.
  induction w as [|a w IH]; simpl; [destruct (pieces s); reflexivity|].
  intros Hs Ht. apply andb_prop in Hs as [Ha Hs]. apply andb_prop in Ht as [Hb Ht].
  rewrite (IH Hs Ht).
  destruct (Str.is_space a); [discriminate|].
  destruct (Str.is_terminator a); [discriminate|]. reflexivity.
Qed.

Lemma words_and_marks_mark p c q :
  Str.is_terminator c = true ->
  words_and_marks (p ++ String c q)
  = (words_and_marks p ++ String c "" :: words_and_marks q)%list.
Proof.
  intros Ht. unfold words_and_marks at 1 2. rewrite (pieces_mark p c q Ht).
  destruct (pieces p). cbn [fst snd]. apply push_app.
Qed.

Lemma words_and_marks_word_mark p w c q :
  ends_at_boundary p = true -> is_word w -> Str.is_terminator c = true ->
  words_and_marks (p ++ w ++ String c q)
  = (words_and_marks p ++ w :: String c "" :: words_and_marks q)%list.
Proof.
  intros Hb (Hne & Hs & Ht) Hc.
  assert (Hw : words_and_marks (w ++ String c q)
               = w :: String c "" :: words_and_marks q).
  { unfold words_and_marks at 1. rewrite (pieces_word w _ Hs Ht).
    pose proof (pieces_mark "" c q Hc) as Hm.
    change ("" ++ String c q) with (String c q) in Hm.
    rewrite Hm. cbn [fst snd pieces app].
    rewrite str_app_nil_r. unfold push. destruct w; [congruence|reflexivity]. }
  destruct p as [|a p]; [exact Hw|].
  unfold words_and_marks at 1 2.
  rewrite (pieces_boundary (String a p) _ ltac:(discriminate) Hb).
  destruct (pieces (String a p)). cbn [fst snd]. rewrite push_app, Hw. reflexivity.
Qed.

Lemma all_chars_app_false p s :
  Str.all_chars Str.is_space s = false ->
  Str.all_chars Str.is_space (p ++ s) = false.
Proof.
  intros H. induction p as [|a p IH]; [exact H|].
  simpl. rewrite IH. apply andb_false_r.
Qed.

Lemma mark_not_blank p c q :
  Str.is_terminator c = true ->
  Str.all_chars Str.is_space (p ++ String c q) = false.
Proof.
  intros Ht. apply all_chars_app_false. simpl.
  rewrite (terminator_not_space c Ht). reflexivity.
Qed.

(** C6, as the code has it: the tokens of a text are its words and its
    sentence terminators, in order, each terminator a one-character token
    of its own.  A token that ends in a terminator is that terminator; the
    tokens that [preprocessText] returns are these; "This is a test."
    yields "This", "is", "a", "test", ".".  Every terminator of a text is
    emitted as its own token between the tokens of what precedes it and of
    what follows it, and a word immediately followed by a terminator
    yields the word and then the terminator. *)
Theorem terminators_are_separate_tokens :
  (forall text tok,
      In tok (tokenize text) ->
      Str.ends_with_terminator tok = true ->
      exists c, Str.is_terminator c = true /\ tok = String c "")
  /\ (forall this text tokens,
        preprocessText this (JSString text) = Ok tokens ->
        tokens = tokenize text)
  /\ tokenize test_text = ["This"; "is"; "a"; "test"; "."]
  /\ (forall text,
        Str.all_chars Str.is_space text = false ->
        tokenize text = words_and_marks text)
  /\ (forall p c q,
        Str.is_terminator c = true ->
        tokenize (p ++ String c q)
        = (words_and_marks p ++ String c "" :: words_and_marks q)%list)
  /\ (forall p w c q,
        ends_at_boundary p = true ->
        is_word w ->
        Str.is_terminator c = true ->
        tokenize (p ++ w ++ String c q)
        = (words_and_marks p ++ w :: String c "" :: words_and_marks q)%list).
Proof.
  split; [|split; [|split; [|split; [|split]]]].
  - intros text tok Hin Hend.
    pose proof (tokenize_shape text) as H. rewrite Forall_forall in H.
    specialize (H tok Hin). unfold token_shape in H.
    apply orb_prop in H as [H|H].
    + destruct tok as [|c [|c' tok]]; try discriminate.
      exists c. split; [exact Hend|reflexivity].
    + exfalso. clear Hin. induction tok as [|c tok IH]; [discriminate|].
      unfold terminator_free in H. simpl in H.
      apply andb_prop in H as [Hc Ht].
      destruct tok as [|c' tok].
      * simpl in Hend. rewrite Hend in Hc. discriminate.
      * apply IH; assumption.
  - intros this text tokens. unfold preprocessText.
    destruct (Str.is_empty _); [discriminate|].
    destruct (_ <? _)%nat; [discriminate|]. intros [= <-]. reflexivity.
  - reflexivity.
  - exact tokenize_words_and_marks.
  - intros p c q Hc.
    rewrite (tokenize_words_and_marks _ (mark_not_blank p c q Hc)).
    exact (words_and_marks_mark p c q Hc).
  - intros p w c q Hb Hw Hc.
    rewrite tokenize_words_and_marks.
    + exact (words_and_marks_word_mark p w c q Hb Hw Hc).
    + apply all_chars_app_false. exact (mark_not_blank w c q Hc).
Qed.

Lemma terminators_are_separate_tokens_witness :
  In "." (tokenize test_text)
  /\ Str.ends_with_terminator "." = true
  /\ (exists c, Str.is_terminator c = true /\ "." = String c "")
  /\ ends_at_boundary "This is a " = true
  /\ is_word "test"
  /\ Str.is_terminator "." = true
  /\ tokenize ("This is a " ++ "test" ++ String "." "")
     = (words_and_marks "This is a " ++ "test" :: "." :: words_and_marks "")%list.
Proof.
  assert (H1 : In "." (tokenize test_text)) by (vm_compute; tauto).
  assert (H2 : Str.ends_with_terminator "." = true) by reflexivity.
  assert (H3 : ends_at_boundary "This is a " = true) by reflexivity.
  assert (H4 : is_word "test").
  { split; [discriminate|]. split; reflexivity. }
  assert (H5 : Str.is_terminator "." = true) by reflexivity.
  split; [exact H1|]. split; [exact H2|].
  split; [exact (proj1 terminators_are_separate_tokens test_text "." H1 H2)|].
  split; [exact H3|]. split; [exact H4|]. split; [exact H5|].
  exact (proj2 (proj2 (proj2 (proj2 (proj2 terminators_are_separate_tokens))))
           "This is a " "test" "."%char "" H3 H4 H5).
Defined.

Example words_and_marks_ex1 :
  words_and_marks "Wait...  what?! ok" = ["Wait"; "."; "."; "."; "what"; "?"; "!"; "ok"]
  /\ tokenize "Wait...  what?! ok" = words_and_marks "Wait...  what?! ok".
Proof. split; reflexivity. Qed.
